(** * The retrieval-augmented answer pipeline

    A shallow embedding of the question-answering service: the refactored
    services and controller under [demo/src] and the single-file server
    [rag.ts] they were cut from.  Both orchestrations are kept, since they
    differ in how they escalate to a human. *)

From Stdlib Require Import NArith Floats Strings.String Strings.Ascii.
From stdpp Require Import base option list gmap sets sorting.

Set Default Proof Using "Type".

(** ** JavaScript strings

    A string is its sequence of UTF-16 code units.  Literals of the source
    are written as Rocq strings and read byte by byte; every literal of the
    source used here is ASCII. *)

Module JS.

Definition str : Type := list N.

Definition lit (s : string) : str := N_of_ascii <$> list_ascii_of_string s.

(** The code units [String.prototype.trim] strips: WhiteSpace and
    LineTerminator of ECMA-262. *)
Definition isWhiteSpace (c : N) : bool :=
  ((9 <=? c) && (c <=? 13)            (* TAB LF VT FF CR *)
   || (c =? 32)                       (* SPACE *)
   || (c =? 160)                      (* NO-BREAK SPACE *)
   || (c =? 5760)                     (* OGHAM SPACE MARK *)
   || ((8192 <=? c) && (c <=? 8202))  (* EN QUAD .. HAIR SPACE *)
   || (c =? 8232) || (c =? 8233)      (* LINE, PARAGRAPH SEPARATOR *)
   || (c =? 8239) || (c =? 8287)      (* NARROW NBSP, MEDIUM MATH SPACE *)
   || (c =? 12288)                    (* IDEOGRAPHIC SPACE *)
   || (c =? 65279))%N.                (* ZERO WIDTH NO-BREAK SPACE *)

Fixpoint trimStart (s : str) : str :=
  match s with
  | c :: s' => if isWhiteSpace c then trimStart s' else s
  | [] => []
  end.

Definition trimEnd (s : str) : str := reverse (trimStart (reverse s)).

Definition trim (s : str) : str := trimEnd (trimStart s).

(** [s.startsWith(p)]. *)
Fixpoint startsWith (p s : str) : bool :=
  match p, s with
  | [], _ => true
  | a :: p', b :: s' => (a =? b)%N && startsWith p' s'
  | _ :: _, [] => false
  end.

(** [s.slice(0, n)]. *)
Definition slice0 {A} (n : nat) (l : list A) : list A := take n l.

(** [l.join(sep)] on a list of strings. *)
Fixpoint join (sep : str) (l : list str) : str :=
  match l with
  | [] => []
  | [x] => x
  | x :: l' => x ++ sep ++ join sep l'
  end.

Definition nl : str := [10%N].

(** The empty string. *)
Definition empty : str := [].

End JS.

Arguments JS.lit s%_string.

Abbreviation jsstring := JS.str.

(** ** [utils/types.ts] *)

Module Types.

Record Chunk := mkChunk {
  chunk_id      : jsstring;
  source_file   : jsstring;
  section_title : jsstring;
  text          : jsstring;
  similarity    : float;
}.

Record RelevantDocument := mkRelevantDocument {
  id     : jsstring;
  reason : jsstring;
}.

(** The declared type has [relevant_documents: RelevantDocument[]]; the value
    comes out of an unchecked cast of parsed JSON and every reader goes
    through [?.] and [??], so the field may be missing. *)
Record DataCheckerResponse := mkDataCheckerResponse {
  relevant_documents : option (list RelevantDocument);
}.

Record FinalAnswerResponse := mkFinalAnswerResponse {
  logica         : jsstring;
  docuementacion : jsstring;
  respuesta      : jsstring;
  handoff        : bool;
}.

Record SourceReference := mkSourceReference {
  ref_chunk_id      : jsstring;
  ref_section_title : jsstring;
  ref_source_file   : jsstring;
}.

End Types.
Import Types.

(** ** [services/rag-pipeline.service.ts]: the hallucination guard *)

Module Validated.
Record t := mk {
  chunks        : list Chunk;
  hadValidation : bool;
  hadFallback   : bool;
}.
End Validated.

(** [checkerResult?.relevant_documents ?? []] *)
Definition selected_documents (checkerResult : option DataCheckerResponse)
  : list RelevantDocument :=
  default [] (checkerResult ≫= relevant_documents).

Definition validateAndGetRelevantChunks
    (checkerResult : option DataCheckerResponse) (originalChunks : list Chunk)
  : Validated.t :=
  let validChunkIds : gset jsstring := list_to_set (chunk_id <$> originalChunks) in
  let validatedDocs :=
    filter (λ d, id d ∈ validChunkIds) (selected_documents checkerResult) in
  if bool_decide (0 < length validatedDocs) then
    let selectedChunks :=
      filter (λ c, Exists (λ d, id d = chunk_id c) validatedDocs) originalChunks in
    {| Validated.chunks := selectedChunks;
       Validated.hadValidation := true; Validated.hadFallback := false |}
  else
    {| Validated.chunks := JS.slice0 2 originalChunks;
       Validated.hadValidation := false; Validated.hadFallback := true |}.

(** The count the guard logs as hallucinated. *)
Definition rejectedCount
    (checkerResult : option DataCheckerResponse) (originalChunks : list Chunk) : nat :=
  let validChunkIds : gset jsstring := list_to_set (chunk_id <$> originalChunks) in
  length (selected_documents checkerResult)
  - length (filter (λ d, id d ∈ validChunkIds) (selected_documents checkerResult)).

(** ** Effects: exceptions, module state and the record of calls

    An [async] function is a computation that may throw and that reads and
    writes the module-level variables of [embedding.service.ts].  Console
    output and the clock ([Date.now], [executionTime]) are left out.  The
    state also keeps which service functions were entered, in order, with
    the arguments the properties below look at: what a test double would
    count. *)

Inductive Error :=
| ExternalFailure (message : jsstring)        (* a provider, the hub or the store rejected *)
| SyntaxError                                 (* JSON.parse *)
| CannotParseColumnType (colType : jsstring)
| MismatchInProduction (dbDim modelDim : nat)
| PaddingNotSafe (dbDim modelDim : nat).

Inductive Result (A : Type) :=
| Ok (a : A)
| Throw (e : Error).
Arguments Ok {A} a.
Arguments Throw {A} e.

Inductive Call :=
| Call_detectDimensions
| Call_embedQuestion (question : jsstring)
| Call_retrieveChunks (topK : nat)
| Call_fetchChunksByIds (ids : list jsstring)
| Call_runDataChecker (chunks : list Chunk)
| Call_runRespuestaFinal (relevantChunks : list Chunk).

Record State := mkState {
  EFFECTIVE_DIM      : nat;
  TRUNCATE_EMBEDDING : bool;
  calls              : list Call;
}.

(** [let EFFECTIVE_DIM = 0; let TRUNCATE_EMBEDDING = false;] *)
Definition initial : State :=
  {| EFFECTIVE_DIM := 0; TRUNCATE_EMBEDDING := false; calls := [] |}.

Definition M (A : Type) : Type := State → Result A * State.

Definition ret {A} (a : A) : M A := λ s, (Ok a, s).

Definition bind {A B} (m : M A) (k : A → M B) : M B :=
  λ s, match m s with
       | (Ok a, s') => k a s'
       | (Throw e, s') => (Throw e, s')
       end.

Definition throw {A} (e : Error) : M A := λ s, (Throw e, s).

(** Awaiting a promise of the outside world. *)
Definition await {A} (r : Result A) : M A := λ s, (r, s).

(** [try { m } catch { h }] *)
Definition try_catch {A} (m : M A) (h : M A) : M A :=
  λ s, match m s with
       | (Ok a, s') => (Ok a, s')
       | (Throw _, s') => h s'
       end.

Definition get : M State := λ s, (Ok s, s).

Definition set_EFFECTIVE_DIM (n : nat) : M unit :=
  λ s, (Ok (), {| EFFECTIVE_DIM := n;
                  TRUNCATE_EMBEDDING := TRUNCATE_EMBEDDING s; calls := calls s |}).

Definition set_TRUNCATE_EMBEDDING (b : bool) : M unit :=
  λ s, (Ok (), {| EFFECTIVE_DIM := EFFECTIVE_DIM s;
                  TRUNCATE_EMBEDDING := b; calls := calls s |}).

(** The state once the calls [cs] have been entered. *)
Definition after (s : State) (cs : list Call) : State :=
  {| EFFECTIVE_DIM := EFFECTIVE_DIM s;
     TRUNCATE_EMBEDDING := TRUNCATE_EMBEDDING s;
     calls := calls s ++ cs |}.

Definition enter (c : Call) : M unit := λ s, (Ok (), after s [c]).

Declare Scope js_scope.
Delimit Scope js_scope with js.
Notation "'let*' x := m 'in' k" := (bind m (λ x, k))
  (at level 10, x name, m at level 100, k at level 200) : js_scope.
Notation "m ;;; k" := (bind m (λ _, k))
  (at level 100, k at level 200, right associativity) : js_scope.
Open Scope js_scope.

(** ** The outside world

    Everything the service awaits: the embedding and generation providers,
    the prompt hub, the store, and the runtime's [JSON.parse].  The parser
    is read at the type the source casts its result to, [None] being a
    [SyntaxError]; well-formed JSON of another shape than the declared one
    is outside this reading, the missing [relevant_documents] apart.

    A request of [rag.ts] queries the table twice, for the nearest rows and
    then for the rows of the selected identifiers.  The two queries are
    separate round trips: the second can fail, or find other rows, after the
    first has answered.  [document_chunks] is what the store answers to the
    first query on the table and [document_chunks_later] what it answers to
    the second. *)

Record Row := mkRow {
  row_chunk_id      : jsstring;
  row_source_file   : jsstring;
  row_section_title : jsstring;
  row_text          : jsstring;
  row_embedding     : list float;
}.

Record World := mkWorld {
  isProd             : bool;                       (* NODE_ENV === "production" *)
  col_type           : Result (option jsstring);   (* rows[0]?.col_type of the catalog query *)
  embedContent       : jsstring → Result (list float);
  document_chunks    : Result (list Row);          (* the table, in the store's natural order *)
  document_chunks_later : Result (list Row);       (* the table, at the request's second query *)
  cosine_distance    : list float → list float → float;   (* pgvector's <=> *)
  hub_prompt         : jsstring → list (jsstring * jsstring) → Result jsstring;
  generateContent    : jsstring → Result jsstring;
  JSON_parse_checker : jsstring → option DataCheckerResponse;
  JSON_parse_final   : jsstring → option FinalAnswerResponse;
}.

(** The world as the request's second query on the table finds it. *)
Definition later (w : World) : World :=
  {| isProd := isProd w;
     col_type := col_type w;
     embedContent := embedContent w;
     document_chunks := document_chunks_later w;
     document_chunks_later := document_chunks_later w;
     cosine_distance := cosine_distance w;
     hub_prompt := hub_prompt w;
     generateContent := generateContent w;
     JSON_parse_checker := JSON_parse_checker w;
     JSON_parse_final := JSON_parse_final w |}.

(** ** [utils/config.ts] and the constants of [rag.ts] *)

Module Config.
Definition topK : nat := 4.
Definition clientName : jsstring := JS.lit "Vicky".
Definition dataChecker : jsstring := JS.lit "data_checker:885899c9".
Definition respuestaFinal : jsstring := JS.lit "respuesta_final:77fd31b5".
End Config.

Module RagTs.
Definition CLIENT_NAME : jsstring := JS.lit "Vicky".
Definition PROMPT_DATA_CHECKER : jsstring := JS.lit "data_checker:885899c9".
Definition PROMPT_RESPUESTA_FINAL : jsstring := JS.lit "respuesta_final:fca2401d".
Definition TOP_K : nat := 5.
Definition NO_ANSWER_MESSAGE : jsstring :=
  JS.lit "Esta pregunta debe ser contestada por un humano.".
End RagTs.

(** ** [services/embedding.service.ts]

    The same four functions stand, word for word, in [rag.ts]. *)

Definition isDigit (c : N) : bool := ((48 <=? c) && (c <=? 57))%N.

Fixpoint digits_prefix (s : jsstring) : jsstring * jsstring :=
  match s with
  | c :: s' =>
      if isDigit c then let '(ds, rest) := digits_prefix s' in (c :: ds, rest)
      else ([], s)
  | [] => ([], [])
  end.

(** Does [/vector\((\d+)\)/] match at the very start of [s]?  The group. *)
Definition vector_dim_here (s : jsstring) : option jsstring :=
  if JS.startsWith (JS.lit "vector(") s then
    match digits_prefix (drop 7 s) with
    | (d :: ds, c :: _) => if (c =? 41)%N then Some (d :: ds) else None
    | _ => None
    end
  else None.

(** [/vector\((\d+)\)/.exec(colType)]: the group of the leftmost match. *)
Fixpoint vector_dim_exec (colType : jsstring) : option jsstring :=
  match vector_dim_here colType with
  | Some ds => Some ds
  | None =>
      match colType with
      | _ :: rest => vector_dim_exec rest
      | [] => None
      end
  end.

(** [parseInt(ds, 10)] on a string of decimal digits (exact below 2^53,
    far above any column width). *)
Definition parseInt10 (ds : jsstring) : nat :=
  foldl (λ acc c, 10 * acc + N.to_nat (c - 48)) 0 ds.

Section Services.

Context (w : World).

Definition detectDimensions : M unit :=
  enter Call_detectDimensions;;;
  let* row := await (col_type w) in
  let colType := default JS.empty row in
  match vector_dim_exec colType with
  | None => throw (CannotParseColumnType colType)
  | Some ds =>
      set_EFFECTIVE_DIM (parseInt10 ds);;;
      let* probe := await (embedContent w (JS.lit "dimension probe")) in
      let modelDim := length probe in
      let* s := get in
      if bool_decide (EFFECTIVE_DIM s = modelDim) then ret ()
      else if isProd w then
        throw (MismatchInProduction (EFFECTIVE_DIM s) modelDim)
      else if bool_decide (EFFECTIVE_DIM s < modelDim) then
        set_TRUNCATE_EMBEDDING true
      else
        throw (PaddingNotSafe (EFFECTIVE_DIM s) modelDim)
  end.

Definition embedQuestion (question : jsstring) : M (list float) :=
  enter (Call_embedQuestion question);;;
  let* vec := await (embedContent w question) in
  let* s := get in
  if TRUNCATE_EMBEDDING s && bool_decide (EFFECTIVE_DIM s < length vec)
  then ret (JS.slice0 (EFFECTIVE_DIM s) vec)
  else ret vec.

(** [SELECT chunk_id, source_file, section_title, text,
           1 - (embedding <=> v) AS similarity
    FROM document_chunks ORDER BY embedding <=> v LIMIT topK],
    read by its SQL meaning: every row takes part in the ordering, and rows
    at the same distance come in the order the sort leaves them in.  An
    approximate index on the column may leave rows out and order ties
    otherwise: the theorems that range over every table use of the
    candidates only that they are rows of the table, at most [topK] of
    them, and as distinct as the table's identifiers. *)
Definition select_nearest (table : list Row) (v : list float) (topK : nat)
  : list Chunk :=
  let distance r := cosine_distance w (row_embedding r) v in
  let ordered :=
    merge_sort (λ r1 r2, Is_true (PrimFloat.leb (distance r1) (distance r2))) table in
  (λ r, {| chunk_id := row_chunk_id r; source_file := row_source_file r;
           section_title := row_section_title r; text := row_text r;
           similarity := (1 - distance r)%float |}) <$> take topK ordered.

Definition retrieveChunks (embedding : list float) (topK : nat) : M (list Chunk) :=
  enter (Call_retrieveChunks topK);;;
  let* table := await (document_chunks w) in
  ret (select_nearest table embedding topK).

(** [SELECT chunk_id, source_file, section_title, text, 0 AS similarity
    FROM document_chunks WHERE chunk_id = ANY(ARRAY[ids]::text[])]; the
    query has no [ORDER BY], and the rows come in the order of the store. *)
Definition select_by_ids (table : list Row) (ids : list jsstring) : list Chunk :=
  (λ r, {| chunk_id := row_chunk_id r; source_file := row_source_file r;
           section_title := row_section_title r; text := row_text r;
           similarity := 0%float |})
  <$> filter (λ r, row_chunk_id r ∈ ids) table.

Definition fetchChunksByIds (ids : list jsstring) : M (list Chunk) :=
  enter (Call_fetchChunksByIds ids);;;
  if bool_decide (length ids = 0) then ret []
  else
    let* table := await (document_chunks w) in
    ret (select_by_ids table ids).

End Services.

(** ** [services/prompt.service.ts] and [services/gemini.service.ts] *)

Definition formatChunks (chunks : list Chunk) : jsstring :=
  JS.join (JS.nl ++ JS.nl ++ JS.lit "---" ++ JS.nl ++ JS.nl)
    ((λ c, JS.lit "DOCUMENT_ID: " ++ chunk_id c ++ JS.nl
           ++ JS.lit "Source: " ++ source_file c ++ JS.lit " > " ++ section_title c ++ JS.nl
           ++ JS.lit "Content: " ++ text c ++ JS.nl
           ++ JS.lit "END_DOCUMENT_ID: " ++ chunk_id c) <$> chunks).

(** [s.replace(/```json|```/g, empty)]: a left-to-right scan; a fence is three
    backquotes, taken together with a following [json] when there is one.
    [skip] counts the code units of the current match still to drop. *)
Fixpoint strip_fences_from (skip : nat) (s : jsstring) : jsstring :=
  match s with
  | [] => []
  | c :: s' =>
      match skip with
      | S k => strip_fences_from k s'
      | 0 =>
          if JS.startsWith (JS.lit "```json") s then strip_fences_from 6 s'
          else if JS.startsWith (JS.lit "```") s then strip_fences_from 2 s'
          else c :: strip_fences_from 0 s'
      end
  end.

Definition strip_fences : jsstring → jsstring := strip_fences_from 0.

(** [raw.trim()], then the fences out, then [.trim()] again. *)
Definition clean (raw : jsstring) : jsstring :=
  JS.trim (strip_fences (JS.trim raw)).

Definition parseJSON {T} (JSON_parse : jsstring → option T) (raw : jsstring) : M T :=
  match JSON_parse (clean raw) with
  | Some v => ret v
  | None => throw SyntaxError
  end.

Section Pipeline.

Context (w : World).

(** The hub's pull, the template's [invoke] and the flattening of its
    messages are the prompt store's business. *)
Definition buildPrompt (promptName : jsstring) (vars : list (jsstring * jsstring))
  : M jsstring :=
  await (hub_prompt w promptName vars).

(** [generateContent] stands for the [text] of the response, the empty
    string when it has none. *)
Definition callGemini (prompt : jsstring) : M jsstring :=
  await (generateContent w prompt).

(** *** [services/rag-pipeline.service.ts] *)

(** The variables [runDataChecker] fills its prompt with. *)
Definition dataChecker_vars (question : jsstring) (chunks : list Chunk)
  : list (jsstring * jsstring) :=
  let allowedIds := JS.join (JS.lit ", ") (chunk_id <$> chunks) in
  let idConstraint :=
    JS.lit "RULE: You MUST only select IDs that appear exactly as DOCUMENT_ID in the documents below. Do NOT invent or modify any ID."
    ++ JS.nl ++ JS.lit "ALLOWED_IDS: " ++ allowedIds ++ JS.nl ++ JS.nl in
  [(JS.lit "question", question);
   (JS.lit "retrieved_document", idConstraint ++ formatChunks chunks)].

(** The variables [runRespuestaFinal] fills its prompt with. *)
Definition respuestaFinal_vars (question : jsstring) (relevantChunks : list Chunk)
  : list (jsstring * jsstring) :=
  [(JS.lit "question", question);
   (JS.lit "retrieved_document", formatChunks relevantChunks);
   (JS.lit "client_name", Config.clientName);
   (JS.lit "mensaje_original", question);
   (JS.lit "contexto", JS.empty)].

(** What the generator answers with when its reply is not JSON. *)
Definition raw_answer (raw : jsstring) : FinalAnswerResponse :=
  {| logica := JS.lit "Respuesta generada directamente.";
     docuementacion := JS.empty;
     respuesta := JS.trim raw;
     handoff := false |}.

Definition runDataChecker (question : jsstring) (chunks : list Chunk)
  : M (option DataCheckerResponse) :=
  enter (Call_runDataChecker chunks);;;
  let* filledPrompt :=
    buildPrompt Config.dataChecker (dataChecker_vars question chunks) in
  let* raw := callGemini filledPrompt in
  let cleaned := clean raw in
  if bool_decide (cleaned = JS.lit "null") || bool_decide (cleaned = JS.empty)
  then ret None
  else
    try_catch
      (let* r := parseJSON (JSON_parse_checker w) cleaned in ret (Some r))
      (ret None).

Definition runRespuestaFinal (question : jsstring) (relevantChunks : list Chunk)
  : M FinalAnswerResponse :=
  enter (Call_runRespuestaFinal relevantChunks);;;
  let* filledPrompt :=
    buildPrompt Config.respuestaFinal (respuestaFinal_vars question relevantChunks) in
  let* raw := callGemini filledPrompt in
  try_catch (parseJSON (JSON_parse_final w) raw) (ret (raw_answer raw)).

End Pipeline.

(** ** [controllers/rag.controller.ts] *)

Module AskResult.
(** What [executeRAGPipeline] resolves to, [executionTime] apart. *)
Record t := mk {
  answer  : jsstring;
  logic   : jsstring;
  sources : list SourceReference;
  handoff : bool;
}.
End AskResult.

Definition sourceReference (c : Chunk) : SourceReference :=
  {| ref_chunk_id := chunk_id c;
     ref_section_title := section_title c;
     ref_source_file := source_file c |}.

Section Controller.

Context (w : World).

(** The [catch] of the source logs and throws the error again. *)
Definition executeRAGPipeline (question : jsstring) : M AskResult.t :=
  let* embedding := embedQuestion w question in
  let* chunks := retrieveChunks w embedding Config.topK in
  let* checkerResult := runDataChecker w question chunks in
  let validated := validateAndGetRelevantChunks checkerResult chunks in
  let relevantChunks := Validated.chunks validated in
  let* finalAnswer := runRespuestaFinal w question relevantChunks in
  let sources := sourceReference <$> relevantChunks in
  ret {| AskResult.answer := respuesta finalAnswer;
         AskResult.logic := logica finalAnswer;
         AskResult.sources := sources;
         AskResult.handoff := handoff finalAnswer |}.

End Controller.

(** ** [rag.ts]: the single-file server's [POST /ask]

    Its two stages differ from the services above in three places: the
    filter's prompt carries no list of allowed identifiers, the generator
    uses another revision of its prompt, and the generator's reply has no
    [handoff] field. *)

Module Monolith.

Record FinalAnswerResponse := mkFinalAnswerResponse {
  logica         : jsstring;
  docuementacion : jsstring;
  respuesta      : jsstring;
}.

Record Body := mkBody {
  answer    : jsstring;
  logic     : option jsstring;
  citation  : option jsstring;
  sources   : list SourceReference;
  escalated : bool;
}.

(** [res.json(body)], [res.status(400).json({error})] and
    [res.status(500).json({error: err.message})]. *)
Inductive Reply :=
| Json (body : Body)
| BadRequest (error : jsstring)
| ServerError (err : Error).

Definition escalation : Body :=
  {| answer := RagTs.NO_ANSWER_MESSAGE; logic := None; citation := None;
     sources := []; escalated := true |}.

Section Handler.

Context (w : World).

Definition dataChecker_vars (question : jsstring) (chunks : list Chunk)
  : list (jsstring * jsstring) :=
  [(JS.lit "question", question);
   (JS.lit "retrieved_document", formatChunks chunks)].

Definition respuestaFinal_vars (question : jsstring) (relevantChunks : list Chunk)
  : list (jsstring * jsstring) :=
  [(JS.lit "question", question);
   (JS.lit "retrieved_document", formatChunks relevantChunks);
   (JS.lit "client_name", RagTs.CLIENT_NAME);
   (JS.lit "mensaje_original", question);
   (JS.lit "contexto", JS.empty)].

Definition raw_answer (raw : jsstring) : FinalAnswerResponse :=
  {| logica := JS.lit "Respuesta generada directamente.";
     docuementacion := JS.empty;
     respuesta := JS.trim raw |}.

Definition runDataChecker (question : jsstring) (chunks : list Chunk)
  : M (option DataCheckerResponse) :=
  enter (Call_runDataChecker chunks);;;
  let* filledPrompt :=
    buildPrompt w RagTs.PROMPT_DATA_CHECKER (dataChecker_vars question chunks) in
  let* raw := callGemini w filledPrompt in
  let cleaned := clean raw in
  if bool_decide (cleaned = JS.lit "null") || bool_decide (cleaned = JS.empty)
  then ret None
  else
    try_catch
      (let* r := parseJSON (JSON_parse_checker w) cleaned in ret (Some r))
      (ret None).

(** The same [JSON.parse], read at the narrower type. *)
Definition JSON_parse_final (s : jsstring) : option FinalAnswerResponse :=
  (λ r, {| logica := Types.logica r;
           docuementacion := Types.docuementacion r;
           respuesta := Types.respuesta r |}) <$> JSON_parse_final w s.

Definition runRespuestaFinal (question : jsstring) (relevantChunks : list Chunk)
  : M FinalAnswerResponse :=
  enter (Call_runRespuestaFinal relevantChunks);;;
  let* filledPrompt :=
    buildPrompt w RagTs.PROMPT_RESPUESTA_FINAL
      (respuestaFinal_vars question relevantChunks) in
  let* raw := callGemini w filledPrompt in
  try_catch (parseJSON JSON_parse_final raw) (ret (raw_answer raw)).

(** The body of the [try] block. *)
Definition ask_pipeline (question : jsstring) : M Body :=
  let* embedding := embedQuestion w question in
  let* chunks := retrieveChunks w embedding RagTs.TOP_K in
  let* checkerResult := runDataChecker question chunks in
  match checkerResult ≫= relevant_documents with
  | None | Some [] => ret escalation
  | Some relevant =>
      let selectedIds := id <$> relevant in
      let* relevantChunks := fetchChunksByIds (later w) selectedIds in
      if bool_decide (length relevantChunks = 0) then ret escalation
      else
        let* finalAnswer := runRespuestaFinal question relevantChunks in
        ret {| answer := respuesta finalAnswer;
               logic := Some (logica finalAnswer);
               citation := Some (docuementacion finalAnswer);
               sources := sourceReference <$> relevantChunks;
               escalated := false |}
  end.

(** [app.post("/ask", ...)] on the [question] of the request body. *)
Definition ask (question : option jsstring) : State → Reply * State :=
  λ s,
    match question with
    | None => (BadRequest (JS.lit "Missing or empty 'question' in request body"), s)
    | Some q =>
        if bool_decide (JS.trim q = JS.empty)
        then (BadRequest (JS.lit "Missing or empty 'question' in request body"), s)
        else
          match ask_pipeline q s with
          | (Ok body, s') => (Json body, s')
          | (Throw err, s') => (ServerError err, s')
          end
    end.

(** [startup().catch(... process.exit(1))]: the server listens only once
    [detectDimensions] has returned. *)
Inductive Process :=
| Listening (s : State)
| Exited (code : nat).

Definition startup (s : State) : Process :=
  match detectDimensions w s with
  | (Ok _, s') => Listening s'
  | (Throw _, _) => Exited 1
  end.

End Handler.

End Monolith.

(** ** [controllers/rag.controller.ts]: the pipeline of [/v1/resolve] *)

Module ResolveResult.
(** What [executeRAGPipelineMinimal] resolves to, [executionTime] apart. *)
Record t := mk {
  replyText : jsstring;
  handoff   : bool;
}.
End ResolveResult.

Definition executeRAGPipelineMinimal (w : World) (question : jsstring)
  : M ResolveResult.t :=
  let* embedding := embedQuestion w question in
  let* chunks := retrieveChunks w embedding Config.topK in
  let* checkerResult := runDataChecker w question chunks in
  let relevantChunks :=
    Validated.chunks (validateAndGetRelevantChunks checkerResult chunks) in
  let* finalAnswer := runRespuestaFinal w question relevantChunks in
  ret {| ResolveResult.replyText := respuesta finalAnswer;
         ResolveResult.handoff := handoff finalAnswer |}.

(** ** [routes/ask.route.ts] and [routes/resolve.route.ts] *)

Module Routes.

(** [res.json(body)], [res.status(400).json({error})] and
    [res.status(500).json({error: err.message})]. *)
Inductive Reply (Body : Type) :=
| Json (body : Body)
| BadRequest (error : jsstring)
| ServerError (err : Error).
Arguments Json {Body} body.
Arguments BadRequest {Body} error.
Arguments ServerError {Body} err.

(** [!value?.trim()]: the field is missing, or blank once trimmed. *)
Definition blank (value : option jsstring) : bool :=
  match value with
  | None => true
  | Some v => bool_decide (JS.trim v = JS.empty)
  end.

(** [askRouter.post("/ask", ...)] on the [question] of the request body. *)
Definition ask (w : World) (question : option jsstring)
  : State → Reply AskResult.t * State :=
  λ s,
    match question with
    | Some q =>
        if blank question
        then (BadRequest (JS.lit "Missing or empty 'question' in request body"), s)
        else
          match executeRAGPipeline w q s with
          | (Ok result, s') =>
              (Json {| AskResult.answer := AskResult.answer result;
                       AskResult.logic := AskResult.logic result;
                       AskResult.sources := AskResult.sources result;
                       AskResult.handoff := AskResult.handoff result |}, s')
          | (Throw err, s') => (ServerError err, s')
          end
    | None => (BadRequest (JS.lit "Missing or empty 'question' in request body"), s)
    end.

(** [resolveRouter.post("/v1/resolve", ...)] on the [text] of the body. *)
Definition resolve (w : World) (text : option jsstring)
  : State → Reply ResolveResult.t * State :=
  λ s,
    match text with
    | Some t =>
        if blank text
        then (BadRequest (JS.lit "Missing or empty 'text' in request body"), s)
        else
          match executeRAGPipelineMinimal w t s with
          | (Ok result, s') =>
              (Json {| ResolveResult.replyText := ResolveResult.replyText result;
                       ResolveResult.handoff := ResolveResult.handoff result |}, s')
          | (Throw err, s') => (ServerError err, s')
          end
    | None => (BadRequest (JS.lit "Missing or empty 'text' in request body"), s)
    end.

End Routes.

(** ** [rag.ts]: [POST /v1/resolve] *)

Module RagTsResolve.

Section Handler.

Context (w : World).

(** The body of the [try] block; the value is the [replyText]. *)
Definition resolve_pipeline (text : jsstring) : M jsstring :=
  let* embedding := embedQuestion w text in
  let* chunks := retrieveChunks w embedding RagTs.TOP_K in
  let* checkerResult := Monolith.runDataChecker w text chunks in
  match checkerResult ≫= relevant_documents with
  | None | Some [] => ret RagTs.NO_ANSWER_MESSAGE
  | Some relevant =>
      let selectedIds := id <$> relevant in
      let* relevantChunks := fetchChunksByIds (later w) selectedIds in
      if bool_decide (length relevantChunks = 0) then ret RagTs.NO_ANSWER_MESSAGE
      else
        let* finalAnswer := Monolith.runRespuestaFinal w text relevantChunks in
        ret (Monolith.respuesta finalAnswer)
  end.

Definition resolve (text : option jsstring) : State → Routes.Reply jsstring * State :=
  λ s,
    match text with
    | Some t =>
        if Routes.blank text
        then (Routes.BadRequest (JS.lit "Missing or empty 'text' in request body"), s)
        else
          match resolve_pipeline t s with
          | (Ok replyText, s') => (Routes.Json replyText, s')
          | (Throw err, s') => (Routes.ServerError err, s')
          end
    | None => (Routes.BadRequest (JS.lit "Missing or empty 'text' in request body"), s)
    end.

End Handler.

End RagTsResolve.

(** ** [utils/config.ts] and [rag.ts]: the required environment

    [process.env] is a finite map from names to strings. *)

Module Env.

Definition REQUIRED_ENV : list jsstring :=
  [JS.lit "GEMINI_API_KEY"; JS.lit "LANGSMITH_API_KEY"; JS.lit "DB_NAME";
   JS.lit "DB_USER"; JS.lit "DB_PASSWORD"].

(** [!process.env[key]]: unset, or set to the empty string. *)
Definition unset (env : gmap jsstring jsstring) (key : jsstring) : bool :=
  match env !! key with
  | Some v => bool_decide (v = JS.empty)
  | None => true
  end.

(** [for (const key of keys) if (!process.env[key]) throw new Error(...)]:
    the key named in the error that is thrown, if one is. *)
Fixpoint firstMissing (env : gmap jsstring jsstring) (keys : list jsstring)
  : option jsstring :=
  match keys with
  | [] => None
  | key :: rest => if unset env key then Some key else firstMissing env rest
  end.

Definition validate (env : gmap jsstring jsstring) : option jsstring :=
  firstMissing env REQUIRED_ENV.

End Env.

(** ** [services/prompt.service.ts]: flattening the filled template

    What [buildPrompt] does with the value the template's [invoke] returns.
    The value is untyped in the source; here a message has a string or
    nothing in each of the three places the code looks at, and
    [toUpperCase] is the runtime's. *)

Module Prompt.

Record Message := mkMessage {
  getType : option jsstring;   (* m._getType?.() *)
  role    : option jsstring;   (* m.role *)
  content : option jsstring;   (* m.content *)
}.

Record Value := mkValue {
  messages       : option (list Message);   (* promptValue.messages *)
  toChatMessages : option (list Message);   (* promptValue.toChatMessages?.() *)
  toString       : jsstring;                (* promptValue.toString() *)
}.

(** [a || b] on strings that may be undefined: the empty string is falsy. *)
Definition or_else (a : option jsstring) (b : jsstring) : jsstring :=
  match a with
  | Some (c :: s) => c :: s
  | Some [] | None => b
  end.

(** [promptValue.messages || promptValue.toChatMessages?.() || []]: an
    array, even an empty one, is truthy. *)
Definition chosen (promptValue : Value) : list Message :=
  match messages promptValue with
  | Some ms => ms
  | None => default [] (toChatMessages promptValue)
  end.

Section Flatten.

Context (toUpperCase : jsstring → jsstring).

Definition line (m : Message) : jsstring :=
  let role := or_else (getType m) (or_else (role m) (JS.lit "human")) in
  let content := or_else (content m) JS.empty in
  toUpperCase role ++ JS.lit ": " ++ content.

Definition filled (promptValue : Value) : jsstring :=
  let messages := chosen promptValue in
  if bool_decide (0 < length messages)
  then JS.join (JS.nl ++ JS.nl) (line <$> messages)
  else toString promptValue.

End Flatten.

End Prompt.

(** ** Sample requests

    Small closed inputs on which the properties are exercised.  The hub
    hands back the name of the prompt as its text, and the stand-in for the
    cosine distance reads the first component of the stored vector. *)

Module Sample.

Definition chunk (i : jsstring) (sim : float) : Chunk :=
  {| chunk_id := i; source_file := JS.lit "manual.md";
     section_title := JS.lit "Devoluciones"; text := JS.lit "Treinta dias.";
     similarity := sim |}.

Definition row (i : jsstring) (d : float) : Row :=
  {| row_chunk_id := i; row_source_file := JS.lit "manual.md";
     row_section_title := JS.lit "Devoluciones"; row_text := JS.lit "Treinta dias.";
     row_embedding := [d; 0%float] |}.

Definition doc (i : jsstring) : RelevantDocument :=
  {| id := i; reason := JS.lit "responde" |}.

Definition decision (ids : list jsstring) : option DataCheckerResponse :=
  Some {| relevant_documents := Some (doc <$> ids) |}.

Definition a : jsstring := JS.lit "a".
Definition b : jsstring := JS.lit "b".
Definition c : jsstring := JS.lit "c".
Definition zz : jsstring := JS.lit "zz".

Definition ranked : list Chunk := [chunk a 0.5; chunk b 0.25; chunk c 0.125].

Definition table : list Row := [row b 0.75; row a 0.5; row c 0.875].

Definition world (prod : bool) (colType : jsstring) (vec : list float)
    (rows : list Row) (model : jsstring → jsstring)
    (asDecision : jsstring → option DataCheckerResponse)
    (asAnswer : jsstring → option FinalAnswerResponse) : World :=
  {| isProd := prod;
     col_type := Ok (Some colType);
     embedContent := λ _, Ok vec;
     document_chunks := Ok rows;
     document_chunks_later := Ok rows;
     cosine_distance := λ u _, hd 0%float u;
     hub_prompt := λ promptName _, Ok promptName;
     generateContent := λ prompt, Ok (model prompt);
     JSON_parse_checker := asDecision;
     JSON_parse_final := asAnswer |}.

Definition question : jsstring := JS.lit "Cual es la politica de devoluciones?".

Definition vec3 : list float := [1; 0; 0]%float.

(** An empty corpus behind a model that answers in plain text. *)
Definition empty_corpus : World :=
  world false (JS.lit "vector(3)") vec3 []
        (λ _, JS.lit "No tengo documentos.") (λ _, None) (λ _, None).

(** A model that answers in plain text, with the usual final newline. *)
Definition plain_text : World :=
  world false (JS.lit "vector(3)") vec3 table
        (λ _, JS.lit "Hola." ++ JS.nl) (λ _, None) (λ _, None).

(** JSON text: a string in double quotes, and the generator's object. *)
Definition quoted (s : jsstring) : jsstring := [34%N] ++ s ++ [34%N].

Definition answer_json (a : FinalAnswerResponse) : jsstring :=
  JS.lit "{" ++ quoted (JS.lit "logica") ++ JS.lit ":" ++ quoted (logica a)
  ++ JS.lit "," ++ quoted (JS.lit "docuementacion") ++ JS.lit ":"
  ++ quoted (docuementacion a)
  ++ JS.lit "," ++ quoted (JS.lit "respuesta") ++ JS.lit ":" ++ quoted (respuesta a)
  ++ JS.lit "," ++ quoted (JS.lit "handoff") ++ JS.lit ":"
  ++ (if handoff a then JS.lit "true" else JS.lit "false") ++ JS.lit "}".

Definition handoff_answer : FinalAnswerResponse :=
  {| logica := JS.lit "Sin datos."; docuementacion := JS.empty;
     respuesta := JS.lit "No lo se."; handoff := true |}.

(** The filter declares nothing relevant; the generator, given the top two
    candidates, sets its own [handoff] flag. *)
Definition unanswerable : World :=
  world false (JS.lit "vector(3)") vec3 table
        (λ prompt, if bool_decide (prompt = Config.dataChecker)
                   then JS.lit "null" else answer_json handoff_answer)
        (λ _, None)
        (λ text, if bool_decide (text = answer_json handoff_answer)
                 then Some handoff_answer else None).

(** The filter selects [a] and [b], inside a code fence; the generator
    answers from them. *)
Definition selection_json : jsstring :=
  JS.lit "{" ++ quoted (JS.lit "relevant_documents") ++ JS.lit ":[{"
  ++ quoted (JS.lit "id") ++ JS.lit ":" ++ quoted a ++ JS.lit ","
  ++ quoted (JS.lit "reason") ++ JS.lit ":" ++ quoted (JS.lit "responde")
  ++ JS.lit "},{"
  ++ quoted (JS.lit "id") ++ JS.lit ":" ++ quoted b ++ JS.lit ","
  ++ quoted (JS.lit "reason") ++ JS.lit ":" ++ quoted (JS.lit "responde")
  ++ JS.lit "}]}".

Definition grounded_answer : FinalAnswerResponse :=
  {| logica := JS.lit "Lo dice el manual."; docuementacion := JS.lit "manual.md";
     respuesta := JS.lit "Treinta dias."; handoff := false |}.

Definition grounded : World :=
  world false (JS.lit "vector(3)") vec3 table
        (λ prompt, if bool_decide (prompt = Config.dataChecker)
                   then JS.lit "```json" ++ JS.nl ++ selection_json ++ JS.nl ++ JS.lit "```"
                   else answer_json grounded_answer)
        (λ text, if bool_decide (text = selection_json) then decision [a; b] else None)
        (λ text, if bool_decide (text = answer_json grounded_answer)
                 then Some grounded_answer else None).

(** [w] with other answers of the store to the two queries of a request. *)
Definition with_store (w : World) (first second : Result (list Row)) : World :=
  {| isProd := isProd w;
     col_type := col_type w;
     embedContent := embedContent w;
     document_chunks := first;
     document_chunks_later := second;
     cosine_distance := cosine_distance w;
     hub_prompt := hub_prompt w;
     generateContent := generateContent w;
     JSON_parse_checker := JSON_parse_checker w;
     JSON_parse_final := JSON_parse_final w |}.

(** The corpus arrives between the two queries: the search finds no row,
    the fetch by identifier finds the rows the filter names. *)
Definition ingesting : World := with_store grounded (Ok []) (Ok table).

(** The store goes away between the two queries. *)
Definition connection_lost : World :=
  with_store grounded (Ok table)
    (Throw (ExternalFailure (JS.lit "Connection terminated unexpectedly"))).

End Sample.

(** ** Vocabulary of the properties *)

(** The documents of a decision that survive the guard's membership test. *)
Definition validatedDocs (checkerResult : option DataCheckerResponse)
    (originalChunks : list Chunk) : list RelevantDocument :=
  filter (λ d, id d ∈ (list_to_set (chunk_id <$> originalChunks) : gset jsstring))
         (selected_documents checkerResult).

(** The reply of the generative provider to a prompt built by the hub. *)
Definition reply_to (w : World) (promptName : jsstring)
    (vars : list (jsstring * jsstring)) : Result jsstring :=
  match hub_prompt w promptName vars with
  | Ok filledPrompt => generateContent w filledPrompt
  | Throw e => Throw e
  end.

(** What the relevance filter makes of a reply. *)
Definition decision_of (w : World) (raw : jsstring) : option DataCheckerResponse :=
  if bool_decide (clean raw = JS.lit "null") || bool_decide (clean raw = JS.empty)
  then None
  else JSON_parse_checker w (clean (clean raw)).

(** What the answer generator makes of a reply. *)
Definition answer_of (w : World) (raw : jsstring) : FinalAnswerResponse :=
  default (raw_answer raw) (JSON_parse_final w (clean raw)).

(** The generator of [rag.ts] on a reply. *)
Definition Monolith_answer_of (w : World) (raw : jsstring)
  : Monolith.FinalAnswerResponse :=
  default (Monolith.raw_answer raw) (Monolith.JSON_parse_final w (clean raw)).

(** What [embedQuestion] returns for the provider's vector in state [s]. *)
Definition aligned (s : State) (vec : list float) : list float :=
  if TRUNCATE_EMBEDDING s && bool_decide (EFFECTIVE_DIM s < length vec)
  then take (EFFECTIVE_DIM s) vec else vec.

(** The candidates the retrieval stage hands to the filter. *)
Definition retrieved (w : World) (topK : nat) (question : jsstring) (s : State)
  : Result (list Chunk) :=
  (bind (embedQuestion w question) (λ embedding, retrieveChunks w embedding topK) s).1.

(** The width of the stored vectors, when the catalog query answers and its
    answer names one. *)
Definition storedWidth (w : World) : option nat :=
  match col_type w with
  | Ok row => parseInt10 <$> vector_dim_exec (default JS.empty row)
  | Throw _ => None
  end.

(** The width of the model's vectors, when the probe answers. *)
Definition modelWidth (w : World) : option nat :=
  match embedContent w (JS.lit "dimension probe") with
  | Ok probe => Some (length probe)
  | Throw _ => None
  end.

(** How startup ended: an exception aborts it; otherwise the flag tells
    whether later vectors are cut. *)
Inductive Mode := Aligned | Truncate | Fatal.

Definition mode_of (outcome : Result unit * State) : Mode :=
  match outcome with
  | (Throw _, _) => Fatal
  | (Ok _, s) => if TRUNCATE_EMBEDDING s then Truncate else Aligned
  end.

(** [s'] is [s] after some request-time work: the two module variables
    are the same, and calls were only added. *)
Definition extends (s s' : State) : Prop :=
  EFFECTIVE_DIM s' = EFFECTIVE_DIM s
  ∧ TRUNCATE_EMBEDDING s' = TRUNCATE_EMBEDDING s
  ∧ calls s `prefix_of` calls s'.

(** A computation that does request-time work only. *)
Definition request_time {A} (m : M A) : Prop := ∀ s, extends s (m s).2.


(** Worlds in which a collaborator is down. *)
Module Outage.

(** The generation provider rejects every call. *)
Definition quota : World :=
  {| isProd := false;
     col_type := Ok (Some (JS.lit "vector(3)"));
     embedContent := λ _, Ok Sample.vec3;
     document_chunks := Ok Sample.table;
     document_chunks_later := Ok Sample.table;
     cosine_distance := λ u _, hd 0%float u;
     hub_prompt := λ promptName _, Ok promptName;
     generateContent := λ _, Throw (ExternalFailure (JS.lit "429 quota"));
     JSON_parse_checker := λ _, None;
     JSON_parse_final := λ _, None |}.

End Outage.

(** The rows behind the candidates of a vector search. *)
Definition nearest_rows (w : World) (table : list Row) (v : list float)
    (topK : nat) : list Row :=
  take topK
    (merge_sort (λ r1 r2, Is_true (PrimFloat.leb
                                     (cosine_distance w (row_embedding r1) v)
                                     (cosine_distance w (row_embedding r2) v)))
                table).

(** The column type [colType] contains [vector(ds)], with [ds] one or more
    decimal digits. *)
Definition names_width (colType ds : jsstring) : Prop :=
  ds ≠ [] ∧ Forall (λ c, isDigit c = true) ds
  ∧ ∃ pre post, colType = pre ++ JS.lit "vector(" ++ ds ++ JS.lit ")" ++ post.

(** The block [formatChunks] writes for one chunk. *)
Definition document_block (c : Chunk) : jsstring := formatChunks [c].

(** What [formatChunks] puts between two blocks. *)
Definition document_separator : jsstring :=
  JS.nl ++ JS.nl ++ JS.lit "---" ++ JS.nl ++ JS.nl.

(** A code fence: three backquotes. *)
Definition fence : jsstring := JS.lit "```".

(** Does a fence occur somewhere in [s]? *)
Fixpoint has_fence (s : jsstring) : bool :=
  JS.startsWith fence s
  || match s with
     | [] => false
     | _ :: s' => has_fence s'
     end.

(** All of [s] is white space. *)
Definition all_white (s : jsstring) : Prop :=
  Forall (λ c, JS.isWhiteSpace c = true) s.

(** * Properties *)

(** ** Lists *)

Lemma filter_ext_in {A} (P Q : A → Prop)
    `{!∀ x, Decision (P x)} `{!∀ x, Decision (Q x)} (l : list A) :
  (∀ x, x ∈ l → (P x ↔ Q x)) → filter P l = filter Q l.
Proof.
  induction l as [|x l IH]; intros Hl; [done|].
  rewrite !filter_cons.
  rewrite IH by (intros y Hy; apply Hl; by right).
  assert (Hx : P x ↔ Q x) by (apply Hl; by left).
  destruct (decide (P x)), (decide (Q x)); tauto.
Qed.

(** ** The hallucination guard *)

Section Guard.

Implicit Types (checkerResult : option DataCheckerResponse)
               (originalChunks : list Chunk).

Lemma elem_of_validatedDocs checkerResult originalChunks d :
  d ∈ validatedDocs checkerResult originalChunks ↔
  d ∈ selected_documents checkerResult ∧ id d ∈ chunk_id <$> originalChunks.
Proof.
  unfold validatedDocs. rewrite list_elem_of_filter, elem_of_list_to_set. tauto.
Qed.

Lemma validate_unfold checkerResult originalChunks :
  validateAndGetRelevantChunks checkerResult originalChunks =
  if bool_decide (0 < length (validatedDocs checkerResult originalChunks)) then
    {| Validated.chunks :=
         filter (λ c, Exists (λ d, id d = chunk_id c)
                             (validatedDocs checkerResult originalChunks))
                originalChunks;
       Validated.hadValidation := true; Validated.hadFallback := false |}
  else
    {| Validated.chunks := take 2 originalChunks;
       Validated.hadValidation := false; Validated.hadFallback := true |}.
Proof. reflexivity. Qed.

Lemma validate_none_selected checkerResult originalChunks :
  (∀ d, d ∈ selected_documents checkerResult → id d ∉ chunk_id <$> originalChunks) →
  validateAndGetRelevantChunks checkerResult originalChunks =
  {| Validated.chunks := take 2 originalChunks;
     Validated.hadValidation := false; Validated.hadFallback := true |}.
Proof.
  intros Hnone. rewrite validate_unfold.
  destruct (validatedDocs checkerResult originalChunks) as [|d ds] eqn:E.
  - reflexivity.
  - exfalso. assert (Hd : d ∈ validatedDocs checkerResult originalChunks).
    { rewrite E. left. }
    apply elem_of_validatedDocs in Hd as [Hsel Hid]. by apply (Hnone d).
Qed.

Lemma validate_some_selected checkerResult originalChunks d :
  d ∈ selected_documents checkerResult → id d ∈ chunk_id <$> originalChunks →
  validateAndGetRelevantChunks checkerResult originalChunks =
  {| Validated.chunks :=
       filter (λ c, chunk_id c ∈ id <$> selected_documents checkerResult) originalChunks;
     Validated.hadValidation := true; Validated.hadFallback := false |}.
Proof.
  intros Hsel Hid. rewrite validate_unfold.
  assert (Hd : d ∈ validatedDocs checkerResult originalChunks)
    by (by apply elem_of_validatedDocs).
  rewrite bool_decide_eq_true_2.
  2:{ destruct (validatedDocs checkerResult originalChunks); [inversion Hd | simpl; lia]. }
  f_equal. apply filter_ext_in.
  intros c Hc. rewrite Exists_exists, list_elem_of_fmap. split.
  - intros (d' & Hd' & Heq). apply elem_of_validatedDocs in Hd' as [? _]. eauto.
  - intros (d' & Heq & Hd'). exists d'. split; [|done].
    apply elem_of_validatedDocs. split; [done|].
    rewrite <- Heq. by apply list_elem_of_fmap_2.
Qed.

(** Whatever the decision, the guard hands on candidates of this request. *)
Lemma validate_chunks_original checkerResult originalChunks c :
  c ∈ Validated.chunks (validateAndGetRelevantChunks checkerResult originalChunks) →
  c ∈ originalChunks.
Proof.
  rewrite validate_unfold. case_bool_decide; simpl.
  - rewrite list_elem_of_filter. tauto.
  - intros Hc. by apply (sublist_subseteq _ _ (sublist_take originalChunks 2)).
Qed.

(** With nothing retrieved there is nothing to select from. *)
Lemma guard_on_empty checkerResult :
  validateAndGetRelevantChunks checkerResult [] =
  {| Validated.chunks := [];
     Validated.hadValidation := false; Validated.hadFallback := true |}.
Proof.
  rewrite validate_none_selected; [done|].
  intros d _ Hin. simpl in Hin. inversion Hin.
Qed.

(** When nothing survives, everything selected was rejected. *)
Lemma rejectedCount_all checkerResult originalChunks :
  (∀ d, d ∈ selected_documents checkerResult → id d ∉ chunk_id <$> originalChunks) →
  rejectedCount checkerResult originalChunks
  = length (selected_documents checkerResult).
Proof.
  intros Hnone. unfold rejectedCount.
  fold (validatedDocs checkerResult originalChunks).
  destruct (validatedDocs checkerResult originalChunks) as [|d ds] eqn:E.
  - simpl. lia.
  - exfalso. assert (Hd : d ∈ validatedDocs checkerResult originalChunks).
    { rewrite E. left. }
    apply elem_of_validatedDocs in Hd as [Hsel Hid]. by apply (Hnone d).
Qed.

End Guard.

(** ** Running the stages *)

Ltac run :=
  repeat (progress (cbv [bind ret throw await try_catch get enter after
                         set_EFFECTIVE_DIM set_TRUNCATE_EMBEDDING] in *; simpl in *)).

Lemma after_after s cs1 cs2 : after (after s cs1) cs2 = after s (cs1 ++ cs2).
Proof. unfold after; simpl. by rewrite app_assoc. Qed.

Section Runs.

Context (w : World).

Lemma embedQuestion_run question s :
  embedQuestion w question s =
  (match embedContent w question with
   | Ok vec => Ok (aligned s vec)
   | Throw e => Throw e
   end,
   after s [Call_embedQuestion question]).
Proof.
  unfold embedQuestion, aligned. run.
  destruct (embedContent w question) as [vec|e]; [|done].
  by destruct (TRUNCATE_EMBEDDING s && _).
Qed.

Lemma retrieveChunks_run embedding topK s :
  retrieveChunks w embedding topK s =
  (match document_chunks w with
   | Ok table => Ok (select_nearest w table embedding topK)
   | Throw e => Throw e
   end,
   after s [Call_retrieveChunks topK]).
Proof. unfold retrieveChunks. run. by destruct (document_chunks w). Qed.

Lemma fetchChunksByIds_run ids s :
  fetchChunksByIds w ids s =
  (match ids with
   | [] => Ok []
   | _ :: _ =>
       match document_chunks w with
       | Ok table => Ok (select_by_ids table ids)
       | Throw e => Throw e
       end
   end,
   after s [Call_fetchChunksByIds ids]).
Proof.
  unfold fetchChunksByIds. run. destruct ids; simpl; [done|].
  by destruct (document_chunks w).
Qed.

Lemma runDataChecker_run question chunks s :
  runDataChecker w question chunks s =
  (match reply_to w Config.dataChecker (dataChecker_vars question chunks) with
   | Ok raw => Ok (decision_of w raw)
   | Throw e => Throw e
   end,
   after s [Call_runDataChecker chunks]).
Proof.
  unfold runDataChecker, buildPrompt, callGemini, reply_to, decision_of, parseJSON.
  run. destruct (hub_prompt w _ _) as [filledPrompt|e]; [|done].
  destruct (generateContent w filledPrompt) as [raw|e]; [|done].
  destruct (_ || _); [done|].
  by destruct (JSON_parse_checker w _).
Qed.

Lemma runRespuestaFinal_run question relevantChunks s :
  runRespuestaFinal w question relevantChunks s =
  (match reply_to w Config.respuestaFinal
           (respuestaFinal_vars question relevantChunks) with
   | Ok raw => Ok (answer_of w raw)
   | Throw e => Throw e
   end,
   after s [Call_runRespuestaFinal relevantChunks]).
Proof.
  unfold runRespuestaFinal, buildPrompt, callGemini, reply_to, answer_of, parseJSON.
  run. destruct (hub_prompt w _ _) as [filledPrompt|e]; [|done].
  destruct (generateContent w filledPrompt) as [raw|e]; [|done].
  by destruct (JSON_parse_final w _).
Qed.

Lemma Monolith_runDataChecker_run question chunks s :
  Monolith.runDataChecker w question chunks s =
  (match reply_to w RagTs.PROMPT_DATA_CHECKER
           (Monolith.dataChecker_vars question chunks) with
   | Ok raw => Ok (decision_of w raw)
   | Throw e => Throw e
   end,
   after s [Call_runDataChecker chunks]).
Proof.
  unfold Monolith.runDataChecker, buildPrompt, callGemini, reply_to, decision_of,
    parseJSON.
  run. destruct (hub_prompt w _ _) as [filledPrompt|e]; [|done].
  destruct (generateContent w filledPrompt) as [raw|e]; [|done].
  destruct (_ || _); [done|].
  by destruct (JSON_parse_checker w _).
Qed.

Lemma Monolith_runRespuestaFinal_run question relevantChunks s :
  Monolith.runRespuestaFinal w question relevantChunks s =
  (match reply_to w RagTs.PROMPT_RESPUESTA_FINAL
           (Monolith.respuestaFinal_vars question relevantChunks) with
   | Ok raw => Ok (Monolith_answer_of w raw)
   | Throw e => Throw e
   end,
   after s [Call_runRespuestaFinal relevantChunks]).
Proof.
  unfold Monolith.runRespuestaFinal, buildPrompt, callGemini, reply_to,
    Monolith_answer_of, parseJSON.
  run. destruct (hub_prompt w _ _) as [filledPrompt|e]; [|done].
  destruct (generateContent w filledPrompt) as [raw|e]; [|done].
  by destruct (Monolith.JSON_parse_final w _).
Qed.

Lemma retrieved_run topK question s :
  retrieved w topK question s =
  match embedContent w question, document_chunks w with
  | Ok vec, Ok table => Ok (select_nearest w table (aligned s vec) topK)
  | Ok _, Throw e => Throw e
  | Throw e, _ => Throw e
  end.
Proof.
  unfold retrieved, bind. rewrite embedQuestion_run.
  destruct (embedContent w question) as [vec|e]; [|done].
  rewrite retrieveChunks_run. by destruct (document_chunks w).
Qed.

(** The whole of [executeRAGPipeline], stage by stage. *)
Lemma executeRAGPipeline_run question s :
  executeRAGPipeline w question s =
  match embedContent w question with
  | Throw e => (Throw e, after s [Call_embedQuestion question])
  | Ok vec =>
    let embed := [Call_embedQuestion question; Call_retrieveChunks Config.topK] in
    match document_chunks w with
    | Throw e => (Throw e, after s embed)
    | Ok table =>
      let chunks := select_nearest w table (aligned s vec) Config.topK in
      match reply_to w Config.dataChecker (dataChecker_vars question chunks) with
      | Throw e => (Throw e, after s (embed ++ [Call_runDataChecker chunks]))
      | Ok raw =>
        let relevantChunks :=
          Validated.chunks (validateAndGetRelevantChunks (decision_of w raw) chunks) in
        let s' := after s (embed ++ [Call_runDataChecker chunks;
                                      Call_runRespuestaFinal relevantChunks]) in
        match reply_to w Config.respuestaFinal
                (respuestaFinal_vars question relevantChunks) with
        | Throw e => (Throw e, s')
        | Ok raw' =>
          (Ok {| AskResult.answer := respuesta (answer_of w raw');
                 AskResult.logic := logica (answer_of w raw');
                 AskResult.sources := sourceReference <$> relevantChunks;
                 AskResult.handoff := handoff (answer_of w raw') |}, s')
        end
      end
    end
  end.
Proof.
  unfold executeRAGPipeline, bind. rewrite embedQuestion_run.
  destruct (embedContent w question) as [vec|e]; [|done].
  rewrite retrieveChunks_run, after_after.
  destruct (document_chunks w) as [table|e]; [|done].
  rewrite runDataChecker_run, after_after.
  destruct (reply_to w Config.dataChecker _) as [raw|e]; [|done].
  rewrite runRespuestaFinal_run, after_after; simpl.
  by destruct (reply_to w Config.respuestaFinal _).
Qed.

End Runs.

(** The whole of the [try] block of [POST /ask] in [rag.ts]. *)
Lemma Monolith_ask_pipeline_run (w : World) question s :
  Monolith.ask_pipeline w question s =
  match embedContent w question with
  | Throw e => (Throw e, after s [Call_embedQuestion question])
  | Ok vec =>
    let embed := [Call_embedQuestion question; Call_retrieveChunks RagTs.TOP_K] in
    match document_chunks w with
    | Throw e => (Throw e, after s embed)
    | Ok table =>
      let chunks := select_nearest w table (aligned s vec) RagTs.TOP_K in
      let filter := embed ++ [Call_runDataChecker chunks] in
      match reply_to w RagTs.PROMPT_DATA_CHECKER
              (Monolith.dataChecker_vars question chunks) with
      | Throw e => (Throw e, after s filter)
      | Ok raw =>
        match decision_of w raw ≫= relevant_documents with
        | None | Some [] => (Ok Monolith.escalation, after s filter)
        | Some relevant =>
          let selectedIds := id <$> relevant in
          let fetch := filter ++ [Call_fetchChunksByIds selectedIds] in
          match document_chunks_later w with
          | Throw e => (Throw e, after s fetch)
          | Ok table' =>
            let relevantChunks := select_by_ids table' selectedIds in
            if bool_decide (length relevantChunks = 0)
            then (Ok Monolith.escalation, after s fetch)
            else
              let s' := after s (fetch ++ [Call_runRespuestaFinal relevantChunks]) in
              match reply_to w RagTs.PROMPT_RESPUESTA_FINAL
                      (Monolith.respuestaFinal_vars question relevantChunks) with
              | Throw e => (Throw e, s')
              | Ok raw' =>
                (Ok {| Monolith.answer := Monolith.respuesta (Monolith_answer_of w raw');
                       Monolith.logic := Some (Monolith.logica (Monolith_answer_of w raw'));
                       Monolith.citation :=
                         Some (Monolith.docuementacion (Monolith_answer_of w raw'));
                       Monolith.sources := sourceReference <$> relevantChunks;
                       Monolith.escalated := false |}, s')
              end
          end
        end
      end
    end
  end.
Proof.
  unfold Monolith.ask_pipeline, bind. rewrite embedQuestion_run.
  destruct (embedContent w question) as [vec|e]; [|done].
  rewrite retrieveChunks_run, after_after.
  destruct (document_chunks w) as [table|e]; [|done].
  rewrite Monolith_runDataChecker_run, after_after.
  destruct (reply_to w RagTs.PROMPT_DATA_CHECKER _) as [raw|e]; [|done].
  simpl. destruct (decision_of w raw ≫= relevant_documents) as [[|d relevant]|]; [done| |done].
  rewrite fetchChunksByIds_run, after_after. simpl.
  destruct (document_chunks_later w) as [table'|e]; [|done]. simpl.
  case_bool_decide; [done|].
  rewrite Monolith_runRespuestaFinal_run, after_after. simpl.
  by destruct (reply_to w RagTs.PROMPT_RESPUESTA_FINAL _).
Qed.

(** ** Claims about the hallucination guard *)

(** C3.  For a non-empty candidate list, when the filter's decision is null
    (which is also what an unparseable reply becomes) or selects only
    identifiers that are not among the candidates, the guard returns the
    first two candidates of the ranked list and reports a fallback; every
    candidate it returns is one of the originals, and in the controller the
    generator is then called with exactly those two. *)
Theorem guard_falls_back_to_top2
    (checkerResult : option DataCheckerResponse) (originalChunks : list Chunk) :
  originalChunks ≠ [] →
  (checkerResult = None ∨
   ∀ d, d ∈ selected_documents checkerResult → id d ∉ chunk_id <$> originalChunks) →
  validateAndGetRelevantChunks checkerResult originalChunks =
    {| Validated.chunks := take 2 originalChunks;
       Validated.hadValidation := false; Validated.hadFallback := true |}
  ∧ take 2 originalChunks ≠ []
  ∧ rejectedCount checkerResult originalChunks
    = length (selected_documents checkerResult)
  ∧ (∀ c, c ∈ take 2 originalChunks →
          c ∈ originalChunks ∧ chunk_id c ∈ chunk_id <$> originalChunks)
  ∧ (∀ w question s raw,
       retrieved w Config.topK question s = Ok originalChunks →
       reply_to w Config.dataChecker (dataChecker_vars question originalChunks) = Ok raw →
       decision_of w raw = checkerResult →
       calls (executeRAGPipeline w question s).2 =
       calls s ++ [Call_embedQuestion question; Call_retrieveChunks Config.topK;
                   Call_runDataChecker originalChunks;
                   Call_runRespuestaFinal (take 2 originalChunks)]).
Proof.
  intros Hne Hdec.
  assert (Hnone : ∀ d, d ∈ selected_documents checkerResult →
                       id d ∉ chunk_id <$> originalChunks).
  { destruct Hdec as [-> | H]; [|done]. intros d Hd. inversion Hd. }
  assert (Hv : validateAndGetRelevantChunks checkerResult originalChunks =
    {| Validated.chunks := take 2 originalChunks;
       Validated.hadValidation := false; Validated.hadFallback := true |})
    by (by apply validate_none_selected).
  split; [done|]. split.
  { destruct originalChunks; [done|]. by destruct originalChunks. }
  split; [by apply rejectedCount_all|].
  split.
  { intros c Hc.
    assert (c ∈ originalChunks)
      by (by apply (sublist_subseteq _ _ (sublist_take originalChunks 2))).
    split; [done|]. by apply list_elem_of_fmap_2. }
  intros w question s raw Hret Hraw Hdecision.
  rewrite executeRAGPipeline_run. rewrite retrieved_run in Hret.
  destruct (embedContent w question) as [vec|e]; [|done].
  destruct (document_chunks w) as [table|e]; [|done].
  injection Hret as Hret. simpl. rewrite Hret, Hraw, Hdecision, Hv. simpl.
  by destruct (reply_to w Config.respuestaFinal _).
Qed.

Lemma guard_falls_back_to_top2_witness :
  validateAndGetRelevantChunks (Sample.decision [Sample.zz]) Sample.ranked =
    {| Validated.chunks := [Sample.chunk Sample.a 0.5; Sample.chunk Sample.b 0.25];
       Validated.hadValidation := false; Validated.hadFallback := true |}.
Proof.
  refine (proj1 (guard_falls_back_to_top2 (Sample.decision [Sample.zz]) Sample.ranked _ _)).
  - discriminate.
  - right. intros d Hd. vm_compute in Hd.
    apply list_elem_of_singleton in Hd as ->. vm_compute.
    intros Hin. repeat (apply elem_of_cons in Hin as [Hin|Hin]; [discriminate|]).
    inversion Hin.
Defined.

(** C4.  When at least one selected identifier is among the candidates, the
    guard returns the candidates whose identifier was selected: a
    subsequence of the original list, in its order, nothing from outside
    it, with no fallback reported and with no bound on how many. *)
Theorem guard_keeps_survivors
    (checkerResult : option DataCheckerResponse) (originalChunks : list Chunk) :
  (∃ d, d ∈ selected_documents checkerResult ∧ id d ∈ chunk_id <$> originalChunks) →
  let v := validateAndGetRelevantChunks checkerResult originalChunks in
  Validated.hadFallback v = false
  ∧ Validated.hadValidation v = true
  ∧ Validated.chunks v =
      filter (λ c, chunk_id c ∈ id <$> selected_documents checkerResult) originalChunks
  ∧ Validated.chunks v `sublist_of` originalChunks
  ∧ (∀ c, c ∈ Validated.chunks v ↔
          c ∈ originalChunks ∧ chunk_id c ∈ id <$> selected_documents checkerResult)
  ∧ (∀ c, c ∈ Validated.chunks v → chunk_id c ∈ chunk_id <$> originalChunks)
  ∧ ((∀ c, c ∈ originalChunks → chunk_id c ∈ id <$> selected_documents checkerResult) →
     Validated.chunks v = originalChunks).
Proof.
  intros (d & Hsel & Hid) v. subst v.
  rewrite (validate_some_selected _ _ d Hsel Hid). simpl.
  split; [done|]. split; [done|]. split; [done|].
  split; [apply sublist_filter|].
  split; [intros c; rewrite list_elem_of_filter; tauto|].
  split.
  - intros c [_ Hc]%list_elem_of_filter. by apply list_elem_of_fmap_2.
  - intros Hall. clear Hid. induction originalChunks as [|c l IH]; [done|].
    rewrite filter_cons_True by (apply Hall; left).
    f_equal. apply IH. intros c' Hc'. apply Hall. by right.
Qed.

Lemma guard_keeps_survivors_witness :
  Validated.chunks
    (validateAndGetRelevantChunks
       (Sample.decision [Sample.c; Sample.zz; Sample.a; Sample.b]) Sample.ranked)
  = Sample.ranked.
Proof.
  refine (proj2 (proj2 (proj2 (proj2 (proj2 (proj2
    (guard_keeps_survivors
       (Sample.decision [Sample.c; Sample.zz; Sample.a; Sample.b]) Sample.ranked _)))))) _).
  - exists (Sample.doc Sample.c). split; vm_compute.
    + left.
    + do 2 right. left.
  - intros c Hc. vm_compute in Hc.
    repeat (apply elem_of_cons in Hc as [->|Hc]);
      [vm_compute; do 2 right; left
      |vm_compute; do 3 right; left
      |vm_compute; left
      |inversion Hc].
Defined.

(** C5, as stated, fails on the empty candidate list: the guard's only
    other branch is the fallback one, and it reports it. *)
Lemma empty_retrieval_reported_as_fallback :
  ¬ (Validated.hadFallback (validateAndGetRelevantChunks None []) = false).
Proof. vm_compute. discriminate. Qed.

(** C5, amended.  Whatever the decision, on an empty candidate list the
    guard returns the empty selection, with [hadValidation = false] and
    [hadFallback = true]. *)
Theorem guard_on_empty_retrieval (checkerResult : option DataCheckerResponse) :
  validateAndGetRelevantChunks checkerResult [] =
  {| Validated.chunks := [];
     Validated.hadValidation := false; Validated.hadFallback := true |}.
Proof.
  rewrite validate_unfold.
  assert (Hnone : validatedDocs checkerResult [] = []).
  { unfold validatedDocs.
    induction (selected_documents checkerResult) as [|d ds IH]; [done|].
    rewrite filter_cons, IH. destruct (decide _) as [Hin|]; [|done].
    simpl in Hin. by apply elem_of_empty in Hin. }
  by rewrite Hnone.
Qed.

(** ** Claims about the dimension guard *)

Lemma detectDimensions_run w s storedW modelW :
  storedWidth w = Some storedW → modelWidth w = Some modelW →
  detectDimensions w s =
  let s' := {| EFFECTIVE_DIM := storedW;
               TRUNCATE_EMBEDDING := TRUNCATE_EMBEDDING s;
               calls := calls s ++ [Call_detectDimensions] |} in
  if bool_decide (storedW = modelW) then (Ok (), s')
  else if isProd w then (Throw (MismatchInProduction storedW modelW), s')
  else if bool_decide (storedW < modelW) then
    (Ok (), {| EFFECTIVE_DIM := storedW; TRUNCATE_EMBEDDING := true;
               calls := calls s ++ [Call_detectDimensions] |})
  else (Throw (PaddingNotSafe storedW modelW), s').
Proof.
  unfold storedWidth, modelWidth, detectDimensions. intros Hs Hm. run.
  destruct (col_type w) as [row|]; [|done]. simpl in *.
  destruct (vector_dim_exec (default JS.empty row)) as [ds|]; [|done].
  injection Hs as ->. run.
  destruct (embedContent w _) as [probe|]; [|done].
  injection Hm as ->. run.
  case_bool_decide; [done|]. destruct (isProd w); [done|].
  by case_bool_decide.
Qed.

(** [embedQuestion] looks at the two module variables only. *)
Lemma embedQuestion_result w question s vec :
  embedContent w question = Ok vec →
  (embedQuestion w question s).1 = Ok (aligned s vec).
Proof. intros H. by rewrite embedQuestion_run, H. Qed.

(** C6.  With the stored width read from the catalog and the model width
    read from the probe: equal widths leave startup in the aligned mode,
    where [embedQuestion] returns the provider's vector as it is; a smaller
    stored width in production throws; a larger stored width throws in
    every environment, and no run of [embedQuestion] ever lengthens a
    vector. *)
Theorem dimension_guard_decides (w : World) (s : State) (storedW modelW : nat) :
  TRUNCATE_EMBEDDING s = false →
  storedWidth w = Some storedW → modelWidth w = Some modelW →
  let out := detectDimensions w s in
  EFFECTIVE_DIM out.2 = storedW
  ∧ (storedW = modelW →
       out.1 = Ok () ∧ mode_of out = Aligned
       ∧ Monolith.startup w s = Monolith.Listening out.2
       ∧ ∀ s' question,
           TRUNCATE_EMBEDDING s' = TRUNCATE_EMBEDDING out.2 →
           (embedQuestion w question s').1 = embedContent w question)
  ∧ (storedW < modelW → isProd w = true →
       out.1 = Throw (MismatchInProduction storedW modelW) ∧ mode_of out = Fatal
       ∧ Monolith.startup w s = Monolith.Exited 1)
  ∧ (modelW < storedW →
       out.1 = Throw (if isProd w then MismatchInProduction storedW modelW
                      else PaddingNotSafe storedW modelW)
       ∧ mode_of out = Fatal
       ∧ Monolith.startup w s = Monolith.Exited 1)
  ∧ (∀ s' question v,
       (embedQuestion w question s').1 = Ok v →
       ∃ vec, embedContent w question = Ok vec ∧ v `prefix_of` vec).
Proof.
  intros Hinit Hs Hm out. subst out. unfold Monolith.startup.
  rewrite (detectDimensions_run w s storedW modelW Hs Hm). simpl.
  split.
  { case_bool_decide; [done|]. destruct (isProd w); [done|]. by case_bool_decide. }
  split.
  { intros ->. rewrite bool_decide_eq_true_2 by done. simpl. rewrite Hinit.
    split; [done|]. split; [done|]. split; [done|].
    intros s' question Hs'. rewrite embedQuestion_run. simpl.
    unfold aligned. rewrite Hs'. simpl. by destruct (embedContent w question). }
  split.
  { intros Hlt ->. rewrite bool_decide_eq_false_2 by lia. done. }
  split.
  { intros Hgt. rewrite bool_decide_eq_false_2 by lia.
    destruct (isProd w); [done|]. rewrite bool_decide_eq_false_2 by lia. done. }
  intros s' question v. rewrite embedQuestion_run. simpl.
  destruct (embedContent w question) as [vec|]; [|done].
  intros [= <-]. exists vec. split; [done|]. unfold aligned.
  destruct (_ && _); [apply prefix_take | done].
Qed.

Lemma dimension_guard_decides_witness :
  (detectDimensions
     (Sample.world true (JS.lit "vector(2)") Sample.vec3 [] (λ _, []) (λ _, None) (λ _, None))
     initial).1
  = Throw (MismatchInProduction 2 3).
Proof.
  refine (proj1 (proj1 (proj2 (proj2 (dimension_guard_decides
    (Sample.world true (JS.lit "vector(2)") Sample.vec3 [] (λ _, []) (λ _, None) (λ _, None))
    initial 2 3 _ _ _))) _ _)).
  - reflexivity.
  - vm_compute. reflexivity.
  - reflexivity.
  - lia.
  - reflexivity.
Defined.

(** C7.  After a startup that found the stored width below the model width
    outside production, the mode is the truncating one, and from then on
    [embedQuestion] returns the first [storedWidth] components of any
    provider vector that has at least that many (one of the model's width
    in particular): a vector of length exactly [storedWidth]. *)
Theorem truncate_mode_width (w : World) (s : State) (storedW modelW : nat) :
  storedWidth w = Some storedW → modelWidth w = Some modelW →
  storedW < modelW → isProd w = false →
  let out := detectDimensions w s in
  out.1 = Ok () ∧ mode_of out = Truncate ∧ EFFECTIVE_DIM out.2 = storedW
  ∧ ∀ s' question vec,
      EFFECTIVE_DIM s' = EFFECTIVE_DIM out.2 →
      TRUNCATE_EMBEDDING s' = TRUNCATE_EMBEDDING out.2 →
      embedContent w question = Ok vec →
      storedW ≤ length vec →
      (embedQuestion w question s').1 = Ok (take storedW vec)
      ∧ length (take storedW vec) = storedW.
Proof.
  intros Hs Hm Hlt Hdev out. subst out.
  rewrite (detectDimensions_run w s storedW modelW Hs Hm). simpl.
  rewrite bool_decide_eq_false_2 by lia. rewrite Hdev.
  rewrite bool_decide_eq_true_2 by done. simpl.
  split; [done|]. split; [done|]. split; [done|].
  intros s' question vec Hdim Htrunc Hvec Hlen.
  rewrite (embedQuestion_result w question s' vec Hvec).
  split; [|by apply length_take_le].
  f_equal. unfold aligned. rewrite Hdim, Htrunc. simpl.
  case_bool_decide; [done|].
  assert (length vec = storedW) as <- by lia. by rewrite firstn_all.
Qed.

Lemma truncate_mode_width_witness :
  (embedQuestion
     (Sample.world false (JS.lit "vector(2)") Sample.vec3 [] (λ _, []) (λ _, None) (λ _, None))
     Sample.question
     (detectDimensions
        (Sample.world false (JS.lit "vector(2)") Sample.vec3 [] (λ _, []) (λ _, None) (λ _, None))
        initial).2).1
  = Ok [1; 0]%float.
Proof.
  refine (proj1 (proj2 (proj2 (proj2 (truncate_mode_width
    (Sample.world false (JS.lit "vector(2)") Sample.vec3 [] (λ _, []) (λ _, None) (λ _, None))
    initial 2 3 _ _ _ _))) _ Sample.question Sample.vec3 _ _ _ _)).
  - vm_compute. reflexivity.
  - reflexivity.
  - lia.
  - reflexivity.
  - reflexivity.
  - reflexivity.
  - reflexivity.
  - simpl. lia.
Defined.

(** ** Claims about malformed replies *)

(** The generator on a plain-text reply that ends in a newline. *)
Example plain_text_run :
  reply_to Sample.plain_text Config.respuestaFinal
    (respuestaFinal_vars Sample.question Sample.ranked) = Ok (JS.lit "Hola." ++ JS.nl)
  ∧ JSON_parse_final Sample.plain_text (clean (JS.lit "Hola." ++ JS.nl)) = None
  ∧ (runRespuestaFinal Sample.plain_text Sample.question Sample.ranked initial).1
    = Ok {| logica := JS.lit "Respuesta generada directamente.";
            docuementacion := JS.empty;
            respuesta := JS.lit "Hola.";
            handoff := false |}.
Proof. repeat split; vm_compute; reflexivity. Qed.

(** C8, as stated, fails on a reply with white space around it: the
    generator's fallback answer is the trimmed reply, not the entire one. *)
Lemma raw_answer_is_trimmed :
  ¬ (∀ raw,
       reply_to Sample.plain_text Config.respuestaFinal
         (respuestaFinal_vars Sample.question Sample.ranked) = Ok raw →
       JSON_parse_final Sample.plain_text (clean raw) = None →
       (runRespuestaFinal Sample.plain_text Sample.question Sample.ranked initial).1 =
       Ok {| logica := JS.lit "Respuesta generada directamente.";
             docuementacion := JS.empty;
             respuesta := raw;
             handoff := false |}).
Proof.
  intros Hclaim.
  destruct plain_text_run as (Hraw & Hparse & Hrun).
  specialize (Hclaim _ Hraw Hparse). rewrite Hrun in Hclaim.
  vm_compute in Hclaim. discriminate Hclaim.
Qed.

(** C8, amended.  When the provider's reply does not parse, neither stage
    throws: the filter returns null (as it does for the reply [null] and for
    the empty reply), and the generator returns the reply with the white
    space around it trimmed as its answer, with the empty citation, the
    generic rationale and [handoff = false]. *)
Theorem malformed_reply_recovered
    (w : World) (question : jsstring) (chunks : list Chunk) (s : State)
    (raw : jsstring) :
  (reply_to w Config.dataChecker (dataChecker_vars question chunks) = Ok raw →
   clean raw = JS.lit "null" ∨ clean raw = JS.empty
   ∨ JSON_parse_checker w (clean (clean raw)) = None →
   (runDataChecker w question chunks s).1 = Ok None)
  ∧ (reply_to w Config.respuestaFinal (respuestaFinal_vars question chunks) = Ok raw →
     JSON_parse_final w (clean raw) = None →
     (runRespuestaFinal w question chunks s).1 =
     Ok {| logica := JS.lit "Respuesta generada directamente.";
           docuementacion := JS.empty;
           respuesta := JS.trim raw;
           handoff := false |}).
Proof.
  split.
  - intros Hraw Hbad. rewrite runDataChecker_run, Hraw. simpl. f_equal.
    unfold decision_of. destruct Hbad as [-> | [-> | Hparse]]; [done|done|].
    rewrite Hparse. by destruct (_ || _).
  - intros Hraw Hparse. rewrite runRespuestaFinal_run, Hraw. simpl.
    unfold answer_of. by rewrite Hparse.
Qed.

Lemma malformed_reply_recovered_witness :
  (runDataChecker Sample.plain_text Sample.question Sample.ranked initial).1 = Ok None
  ∧ (runRespuestaFinal Sample.plain_text Sample.question Sample.ranked initial).1 =
    Ok {| logica := JS.lit "Respuesta generada directamente.";
          docuementacion := JS.empty;
          respuesta := JS.trim (JS.lit "Hola." ++ JS.nl);
          handoff := false |}.
Proof.
  destruct (malformed_reply_recovered Sample.plain_text Sample.question
              Sample.ranked initial (JS.lit "Hola." ++ JS.nl)) as [Hfilter Hgenerator].
  split.
  - apply Hfilter; [reflexivity|]. right. right. reflexivity.
  - apply Hgenerator; reflexivity.
Defined.

(** ** Claims about the fetch by identifier *)

Lemma select_by_ids_ids (table : list Row) (ids : list jsstring) :
  chunk_id <$> select_by_ids table ids
  = row_chunk_id <$> filter (λ r, row_chunk_id r ∈ ids) table.
Proof. unfold select_by_ids. rewrite <- list_fmap_compose. done. Qed.

Lemma select_by_ids_nil (table : list Row) : select_by_ids table [] = [].
Proof.
  unfold select_by_ids.
  rewrite (filter_ext_in _ (λ _, False)); [by induction table|].
  intros r _. split; [|done]. intros Hin. inversion Hin.
Qed.

Lemma select_by_ids_length (table : list Row) (ids : list jsstring) :
  NoDup (row_chunk_id <$> table) →
  length (select_by_ids table ids) ≤ length ids
  ∧ ∀ i, i ∈ ids → i ∉ row_chunk_id <$> table →
         length (select_by_ids table ids) < length ids.
Proof.
  intros Hkey.
  set (found := row_chunk_id <$> filter (λ r, row_chunk_id r ∈ ids) table).
  assert (Hlen : length (select_by_ids table ids) = length found).
  { unfold found. rewrite <- select_by_ids_ids. by rewrite length_fmap. }
  assert (Hsub : found `sublist_of` row_chunk_id <$> table).
  { unfold found. apply fmap_sublist, sublist_filter. }
  assert (Hnodup : NoDup found) by (by eapply sublist_NoDup).
  assert (Hin : ∀ i, i ∈ found → i ∈ ids).
  { intros i (r & -> & Hr)%list_elem_of_fmap.
    by apply list_elem_of_filter in Hr as [? _]. }
  rewrite Hlen. split.
  - apply submseteq_length. by apply NoDup_submseteq.
  - intros i Hi Hmissing.
    apply elem_of_Permutation in Hi as [rest Hrest].
    rewrite Hrest. simpl.
    assert (found ⊆+ rest); [|apply submseteq_length in H; lia].
    apply NoDup_submseteq; [done|]. intros j Hj.
    assert (Hj' : j ∈ i :: rest) by (rewrite <- Hrest; by apply Hin).
    apply elem_of_cons in Hj' as [-> | ?]; [|done].
    exfalso. apply Hmissing. by apply (sublist_subseteq _ _ Hsub).
Qed.

(** C9.  With the store answering, the fetch by identifier never throws:
    it returns rows of the table whose identifier was asked for, none for
    the empty list (for which the store is not even queried), and, the
    identifier being the table's key, no more rows than identifiers and
    strictly fewer as soon as one identifier has no row. *)
Theorem fetchChunksByIds_only_requested
    (w : World) (table : list Row) (ids : list jsstring) (s : State) :
  document_chunks w = Ok table →
  ∃ found,
    (fetchChunksByIds w ids s).1 = Ok found
    ∧ (∀ c, c ∈ found → chunk_id c ∈ ids ∧ chunk_id c ∈ row_chunk_id <$> table)
    ∧ (ids = [] → found = [])
    ∧ (fetchChunksByIds w [] s).1 = Ok []
    ∧ (NoDup (row_chunk_id <$> table) →
       length found ≤ length ids
       ∧ ∀ i, i ∈ ids → i ∉ row_chunk_id <$> table → length found < length ids).
Proof.
  intros Htable. exists (select_by_ids table ids).
  rewrite !fetchChunksByIds_run, Htable. simpl.
  split; [destruct ids; [by rewrite select_by_ids_nil | done]|].
  split.
  { intros c Hc. apply (list_elem_of_fmap_2 chunk_id) in Hc.
    rewrite select_by_ids_ids in Hc.
    apply list_elem_of_fmap in Hc as (r & -> & Hr).
    apply list_elem_of_filter in Hr as [? ?].
    split; [done|]. by apply list_elem_of_fmap_2. }
  split.
  { intros ->. apply select_by_ids_nil. }
  split; [done|].
  apply select_by_ids_length.
Qed.

Lemma fetchChunksByIds_only_requested_witness :
  ∃ found,
    (fetchChunksByIds Sample.plain_text [Sample.zz; Sample.a] initial).1 = Ok found
    ∧ length found < 2.
Proof.
  destruct (fetchChunksByIds_only_requested Sample.plain_text Sample.table
              [Sample.zz; Sample.a] initial) as (found & Hfound & _ & _ & _ & Hlen).
  - reflexivity.
  - exists found. split; [done|].
    apply (proj2 (Hlen ltac:(vm_compute; repeat constructor;
      intros Hin; repeat (apply elem_of_cons in Hin as [Hin|Hin]; [discriminate|]);
      inversion Hin)) Sample.zz).
    + left.
    + vm_compute. intros Hin.
      repeat (apply elem_of_cons in Hin as [Hin|Hin]; [discriminate|]).
      inversion Hin.
Defined.

(** C10.  Every chunk the fetch by identifier returns has similarity 0,
    whatever similarity the retrieval gave the same row. *)
Theorem fetchChunksByIds_similarity_zero
    (w : World) (ids : list jsstring) (s : State) (found : list Chunk) :
  (fetchChunksByIds w ids s).1 = Ok found →
  ∀ c, c ∈ found → similarity c = 0%float.
Proof.
  rewrite fetchChunksByIds_run. simpl. destruct ids as [|i ids].
  - intros [= <-] c Hc. inversion Hc.
  - destruct (document_chunks w) as [table|]; [|done].
    intros [= <-] c Hc. unfold select_by_ids in Hc.
    by apply list_elem_of_fmap in Hc as (r & -> & _).
Qed.

Lemma fetchChunksByIds_similarity_zero_witness :
  similarity (Sample.chunk Sample.a 0) = 0%float
  ∧ (retrieveChunks Sample.plain_text Sample.vec3 1 initial).1
    = Ok [Sample.chunk Sample.a 0.5].
Proof.
  split; [|vm_compute; reflexivity].
  apply (fetchChunksByIds_similarity_zero Sample.plain_text [Sample.a] initial
           [Sample.chunk Sample.a 0]).
  - vm_compute. reflexivity.
  - left.
Defined.

(** ** Claims about the orchestration *)


(** The controller on an empty corpus: the generator runs, and what it says
    is returned. *)
Example empty_corpus_run :
  retrieved Sample.empty_corpus Config.topK Sample.question initial = Ok []
  ∧ executeRAGPipeline Sample.empty_corpus Sample.question initial =
    (Ok {| AskResult.answer := JS.lit "No tengo documentos.";
           AskResult.logic := JS.lit "Respuesta generada directamente.";
           AskResult.sources := [];
           AskResult.handoff := false |},
     after initial
       [Call_embedQuestion Sample.question; Call_retrieveChunks 4;
        Call_runDataChecker []; Call_runRespuestaFinal []]).
Proof. split; vm_compute; reflexivity. Qed.


(** [rag.ts] while the corpus arrives: the search finds no candidate, the
    filter names two identifiers all the same, the fetch finds their rows,
    and the answer is generated from them. *)
Example rows_found_after_empty_search :
  retrieved Sample.ingesting RagTs.TOP_K Sample.question initial = Ok []
  ∧ Monolith.ask Sample.ingesting (Some Sample.question) initial =
    (Monolith.Json
       {| Monolith.answer := JS.lit "Treinta dias.";
          Monolith.logic := Some (JS.lit "Lo dice el manual.");
          Monolith.citation := Some (JS.lit "manual.md");
          Monolith.sources :=
            [sourceReference (Sample.chunk Sample.b 0);
             sourceReference (Sample.chunk Sample.a 0)];
          Monolith.escalated := false |},
     after initial
       [Call_embedQuestion Sample.question; Call_retrieveChunks 5;
        Call_runDataChecker []; Call_fetchChunksByIds [Sample.a; Sample.b];
        Call_runRespuestaFinal [Sample.chunk Sample.b 0; Sample.chunk Sample.a 0]]).
Proof. split; vm_compute; reflexivity. Qed.

(** [rag.ts] when the store goes away before the fetch: a 500 with the
    store's error. *)
Example fetch_failure_is_a_500 :
  (Monolith.ask Sample.connection_lost (Some Sample.question) initial).1
  = Monolith.ServerError
      (ExternalFailure (JS.lit "Connection terminated unexpectedly")).
Proof. vm_compute. reflexivity. Qed.



(** The controller when the generator sets its own flag: the two fallback
    candidates are the sources and the generator's text is the answer. *)
Example unanswerable_run :
  (executeRAGPipeline Sample.unanswerable Sample.question initial).1 =
  Ok {| AskResult.answer := JS.lit "No lo se.";
        AskResult.logic := JS.lit "Sin datos.";
        AskResult.sources :=
          [sourceReference (Sample.chunk Sample.a 0.5);
           sourceReference (Sample.chunk Sample.b 0.25)];
        AskResult.handoff := true |}.
Proof. vm_compute. reflexivity. Qed.

(** C2, as stated, fails in the controller: a result with [handoff = true]
    that has sources and another answer than the escalation message. *)
Lemma handoff_with_sources :
  ¬ (∀ result,
       (executeRAGPipeline Sample.unanswerable Sample.question initial).1 = Ok result →
       AskResult.handoff result = true →
       AskResult.sources result = []
       ∧ AskResult.answer result = RagTs.NO_ANSWER_MESSAGE).
Proof.
  intros Hclaim.
  destruct (Hclaim _ unanswerable_run eq_refl) as [Hsources _].
  discriminate Hsources.
Qed.

(** C2, amended.  In the [POST /ask] of [rag.ts] a response with
    [escalated = true] is the fixed one: the escalation message, no sources.
    In the controller the [handoff] flag, the answer and the rationale are
    those of the generator's reply, and the sources are the candidates the
    guard handed to the generator, whatever the flag. *)
Theorem handoff_flag_contract (w : World) (s : State) :
  (∀ question body,
     (Monolith.ask w question s).1 = Monolith.Json body →
     Monolith.escalated body = true →
     Monolith.sources body = []
     ∧ Monolith.answer body = RagTs.NO_ANSWER_MESSAGE
     ∧ body = Monolith.escalation)
  ∧ (∀ question result,
       (executeRAGPipeline w question s).1 = Ok result →
       ∃ originalChunks checkerResult finalAnswer,
         retrieved w Config.topK question s = Ok originalChunks
         ∧ (runDataChecker w question originalChunks s).1 = Ok checkerResult
         ∧ (runRespuestaFinal w question
              (Validated.chunks
                 (validateAndGetRelevantChunks checkerResult originalChunks)) s).1
           = Ok finalAnswer
         ∧ result =
           {| AskResult.answer := respuesta finalAnswer;
              AskResult.logic := logica finalAnswer;
              AskResult.sources :=
                sourceReference <$>
                  Validated.chunks
                    (validateAndGetRelevantChunks checkerResult originalChunks);
              AskResult.handoff := handoff finalAnswer |}).
Proof.
  split.
  - intros question body. unfold Monolith.ask.
    destruct question as [q|]; [|done].
    case_bool_decide; [done|].
    rewrite Monolith_ask_pipeline_run.
    destruct (embedContent w q) as [vec|e]; [|done].
    destruct (document_chunks w) as [table|e]; [|done].
    simpl. destruct (reply_to w RagTs.PROMPT_DATA_CHECKER _) as [raw|e]; [|done].
    destruct (decision_of w raw ≫= relevant_documents) as [[|d relevant]|]; simpl.
    1,3: by intros [= <-] _.
    destruct (document_chunks_later w) as [table'|e]; [|done]. simpl.
    case_bool_decide; simpl; [by intros [= <-] _|].
    destruct (reply_to w RagTs.PROMPT_RESPUESTA_FINAL _) as [raw'|e]; [|done].
    by intros [= <-] [=].
  - intros question result.
    rewrite executeRAGPipeline_run, retrieved_run.
    destruct (embedContent w question) as [vec|e]; [|done].
    destruct (document_chunks w) as [table|e]; [|done].
    simpl.
    destruct (reply_to w Config.dataChecker _) as [raw|e] eqn:Hraw; [|done].
    destruct (reply_to w Config.respuestaFinal _) as [raw'|e] eqn:Hraw'; [|done].
    intros [= <-].
    eexists _, (decision_of w raw), (answer_of w raw').
    split; [done|].
    rewrite runDataChecker_run, runRespuestaFinal_run, Hraw, Hraw'. done.
Qed.

Lemma handoff_flag_contract_witness :
  Monolith.sources Monolith.escalation = []
  ∧ ∃ originalChunks checkerResult finalAnswer,
      retrieved Sample.unanswerable Config.topK Sample.question initial
      = Ok originalChunks
      ∧ (runRespuestaFinal Sample.unanswerable Sample.question
           (Validated.chunks
              (validateAndGetRelevantChunks checkerResult originalChunks)) initial).1
        = Ok finalAnswer
      ∧ handoff finalAnswer = true
      ∧ sourceReference <$>
          Validated.chunks (validateAndGetRelevantChunks checkerResult originalChunks)
        = [sourceReference (Sample.chunk Sample.a 0.5);
           sourceReference (Sample.chunk Sample.b 0.25)].
Proof.
  destruct (handoff_flag_contract Sample.unanswerable initial) as [Hrag Hcontroller].
  split.
  - refine (proj1 (Hrag (Some Sample.question) Monolith.escalation _ _)).
    + vm_compute. reflexivity.
    + reflexivity.
  - destruct (Hcontroller Sample.question
       {| AskResult.answer := JS.lit "No lo se.";
          AskResult.logic := JS.lit "Sin datos.";
          AskResult.sources :=
            [sourceReference (Sample.chunk Sample.a 0.5);
             sourceReference (Sample.chunk Sample.b 0.25)];
          AskResult.handoff := true |})
      as (originalChunks & checkerResult & finalAnswer & Hret & _ & Hfinal & Hresult).
    + vm_compute. reflexivity.
    + exists originalChunks, checkerResult, finalAnswer.
      injection Hresult as _ _ Hsources Hhandoff. done.
Defined.

(** ** The samples, run *)

Example trim_both_ends :
  JS.trim (JS.nl ++ JS.lit "  a b " ++ [160%N]) = JS.lit "a b".
Proof. reflexivity. Qed.

Example clean_fenced_json :
  clean (JS.lit " ```json" ++ JS.nl ++ JS.lit "{}" ++ JS.nl ++ JS.lit "``` ") = JS.lit "{}".
Proof. vm_compute. reflexivity. Qed.

Example strip_fences_leftmost :
  strip_fences (JS.lit "````json``a``````b") = JS.lit "`json``ab".
Proof. vm_compute. reflexivity. Qed.

Example column_width_768 :
  parseInt10 <$> vector_dim_exec (JS.lit "vector(768)") = Some 768.
Proof. vm_compute. reflexivity. Qed.

Example column_width_leftmost :
  vector_dim_exec (JS.lit "xvector(vector(12)") = Some (JS.lit "12")
  ∧ vector_dim_exec (JS.lit "vector()") = None
  ∧ vector_dim_exec (JS.lit "vector(12") = None.
Proof. repeat split; vm_compute; reflexivity. Qed.

Example retrieval_is_ranked :
  retrieved Sample.grounded Config.topK Sample.question initial = Ok Sample.ranked
  ∧ retrieved Sample.grounded 2 Sample.question initial
    = Ok [Sample.chunk Sample.a 0.5; Sample.chunk Sample.b 0.25].
Proof. split; vm_compute; reflexivity. Qed.

(** The filter selects the first two of three candidates. *)
Example grounded_answer_run :
  executeRAGPipeline Sample.grounded Sample.question initial =
  (Ok {| AskResult.answer := JS.lit "Treinta dias.";
         AskResult.logic := JS.lit "Lo dice el manual.";
         AskResult.sources :=
           [sourceReference (Sample.chunk Sample.a 0.5);
            sourceReference (Sample.chunk Sample.b 0.25)];
         AskResult.handoff := false |},
   after initial
     [Call_embedQuestion Sample.question; Call_retrieveChunks 4;
      Call_runDataChecker Sample.ranked;
      Call_runRespuestaFinal [Sample.chunk Sample.a 0.5; Sample.chunk Sample.b 0.25]]).
Proof. vm_compute. reflexivity. Qed.

(** The same request through [rag.ts]: the selected rows are fetched again
    and come back in the order of the sample store, with similarity 0. *)
Example grounded_answer_rag_ts :
  (Monolith.ask Sample.grounded (Some Sample.question) initial).1 =
  Monolith.Json
    {| Monolith.answer := JS.lit "Treinta dias.";
       Monolith.logic := Some (JS.lit "Lo dice el manual.");
       Monolith.citation := Some (JS.lit "manual.md");
       Monolith.sources :=
         [sourceReference (Sample.chunk Sample.b 0);
          sourceReference (Sample.chunk Sample.a 0)];
       Monolith.escalated := false |}.
Proof. vm_compute. reflexivity. Qed.

Example blank_question_rejected :
  (Monolith.ask Sample.grounded (Some (JS.lit "   ")) initial).1
  = Monolith.BadRequest (JS.lit "Missing or empty 'question' in request body").
Proof. vm_compute. reflexivity. Qed.

(** * Further properties of the code *)

(** ** [String.prototype.trim] as the service uses it *)

Section Trim.

Implicit Types (s t : jsstring) (c : N).

Lemma trimStart_split s : ∃ pre, s = pre ++ JS.trimStart s ∧ all_white pre.
Proof.
  induction s as [|c s (pre & Hs & Hpre)].
  { exists []. split; [done | constructor]. }
  simpl. destruct (JS.isWhiteSpace c) eqn:Hc.
  - exists (c :: pre). split; [by rewrite Hs at 1|]. by constructor.
  - exists []. split; [done | constructor].
Qed.

Lemma trimStart_head s c t : JS.trimStart s = c :: t → JS.isWhiteSpace c = false.
Proof.
  induction s as [|a s IH]; [done|]. simpl.
  destruct (JS.isWhiteSpace a) eqn:Ha; [done|]. by intros [= <- _].
Qed.

Lemma trimStart_fix s :
  (∀ c t, s = c :: t → JS.isWhiteSpace c = false) → JS.trimStart s = s.
Proof. destruct s as [|c t]; [done|]. intros H. simpl. by rewrite (H c t). Qed.

Lemma trimStart_all_white s : all_white s → JS.trimStart s = [].
Proof. induction 1 as [|c s Hc _ IH]; [done|]. simpl. by rewrite Hc. Qed.

Lemma trimEnd_split s : ∃ post, s = JS.trimEnd s ++ post ∧ all_white post.
Proof.
  destruct (trimStart_split (reverse s)) as (pre & Hs & Hpre).
  exists (reverse pre). split; [|by apply Forall_reverse].
  unfold JS.trimEnd. rewrite <- reverse_app, <- Hs. by rewrite reverse_involutive.
Qed.

Lemma trimEnd_last s c t : JS.trimEnd s = t ++ [c] → JS.isWhiteSpace c = false.
Proof.
  unfold JS.trimEnd. intros H. apply (f_equal reverse) in H.
  rewrite reverse_involutive, reverse_snoc in H. by eapply trimStart_head.
Qed.

Lemma trimEnd_fix s :
  (∀ c t, s = t ++ [c] → JS.isWhiteSpace c = false) → JS.trimEnd s = s.
Proof.
  intros H. unfold JS.trimEnd. rewrite trimStart_fix; [apply reverse_involutive|].
  intros c t Hrev. apply (H c (reverse t)).
  apply (f_equal reverse) in Hrev.
  by rewrite reverse_involutive, reverse_cons in Hrev.
Qed.

Lemma trim_head s c t : JS.trim s = c :: t → JS.isWhiteSpace c = false.
Proof.
  unfold JS.trim. intros H.
  destruct (trimEnd_split (JS.trimStart s)) as (post & Hs & _).
  rewrite H in Hs. by eapply trimStart_head.
Qed.

Lemma trim_last s c t : JS.trim s = t ++ [c] → JS.isWhiteSpace c = false.
Proof. apply trimEnd_last. Qed.

Lemma trim_split s :
  ∃ pre post, s = pre ++ JS.trim s ++ post ∧ all_white pre ∧ all_white post.
Proof.
  destruct (trimStart_split s) as (pre & Hs & Hpre).
  destruct (trimEnd_split (JS.trimStart s)) as (post & Ht & Hpost).
  exists pre, post. split; [|done]. unfold JS.trim. by rewrite <- Ht.
Qed.

Lemma trim_trim s : JS.trim (JS.trim s) = JS.trim s.
Proof.
  unfold JS.trim at 1. rewrite (trimStart_fix (JS.trim s)) by apply trim_head.
  apply trimEnd_fix, trim_last.
Qed.

Lemma trim_empty_iff s : JS.trim s = JS.empty ↔ all_white s.
Proof.
  split.
  - intros H. destruct (trim_split s) as (pre & post & Hs & Hpre & Hpost).
    rewrite H in Hs. rewrite Hs. by apply Forall_app.
  - intros H. unfold JS.trim. by rewrite trimStart_all_white.
Qed.

End Trim.

(** [trim] removes white space and nothing else, and only at the two
    ends: the string is the trimmed one between two runs of white space,
    the trimmed one neither begins nor ends with white space, and trimming
    again changes nothing. *)
Theorem trim_strips_both_ends (s : jsstring) :
  (∃ pre post, s = pre ++ JS.trim s ++ post ∧ all_white pre ∧ all_white post)
  ∧ (∀ c t, JS.trim s = c :: t → JS.isWhiteSpace c = false)
  ∧ (∀ c t, JS.trim s = t ++ [c] → JS.isWhiteSpace c = false)
  ∧ JS.trim (JS.trim s) = JS.trim s.
Proof.
  split; [apply trim_split|]. split; [apply trim_head|].
  split; [apply trim_last | apply trim_trim].
Qed.

(** ** Code fences and [parseJSON] *)

Section Fences.

Implicit Types (s t p : jsstring) (c : N).

Lemma startsWith_fence s :
  JS.startsWith fence s = true ↔ ∃ r, s = 96%N :: 96%N :: 96%N :: r.
Proof.
  change fence with [96; 96; 96]%N. split.
  - destruct s as [|a [|b [|c r]]]; cbn [JS.startsWith];
      rewrite ?andb_false_r; try done.
    rewrite !andb_true_iff, !N.eqb_eq. intros (<- & <- & <- & _). by exists r.
  - by intros [r ->].
Qed.

Lemma startsWith_app_l p q s :
  JS.startsWith (p ++ q) s = true → JS.startsWith p s = true.
Proof.
  revert s. induction p as [|a p IH]; intros [|b s]; simpl; try done.
  rewrite !andb_true_iff. intros [? ?]. eauto.
Qed.

Lemma startsWith_app_r p s t :
  JS.startsWith p s = true → JS.startsWith p (s ++ t) = true.
Proof.
  revert s. induction p as [|a p IH]; intros [|b s]; simpl; try done.
  rewrite !andb_true_iff. intros [? ?]. eauto.
Qed.

Lemma startsWith_json_fence s :
  JS.startsWith (JS.lit "```json") s = true → JS.startsWith fence s = true.
Proof. apply (startsWith_app_l fence (JS.lit "json")). Qed.

Lemma strip_fences_cons c s :
  strip_fences_from 0 (c :: s) =
  if JS.startsWith (JS.lit "```json") (c :: s) then strip_fences_from 6 s
  else if JS.startsWith fence (c :: s) then strip_fences_from 2 s
  else c :: strip_fences_from 0 s.
Proof. reflexivity. Qed.

(** The first code unit that is kept is the first of the input, unless the
    input begins with a fence. *)
Lemma strip_fences_head s c o :
  strip_fences_from 0 s = c :: o →
  JS.startsWith fence s = true ∨ ∃ s1, s = c :: s1 ∧ o = strip_fences_from 0 s1.
Proof.
  destruct s as [|a s1]; [done|]. rewrite strip_fences_cons.
  destruct (JS.startsWith (JS.lit "```json") (a :: s1)) eqn:Hjson.
  { intros _. left. by apply startsWith_json_fence. }
  destruct (JS.startsWith fence (a :: s1)) eqn:Hfence; [by left|].
  intros [= -> <-]. right. by exists s1.
Qed.

Lemma strip_fences_no_new_fence c s :
  JS.startsWith fence (c :: strip_fences_from 0 s) = true →
  JS.startsWith fence (c :: s) = true.
Proof.
  intros [r [= -> Ho]]%startsWith_fence. apply startsWith_fence.
  apply strip_fences_head in Ho as [[r1 ->]%startsWith_fence | (s1 & -> & Ho)];
    [by eexists|].
  symmetry in Ho.
  apply strip_fences_head in Ho as [[r2 ->]%startsWith_fence | (s2 & -> & _)];
    by eexists.
Qed.

Lemma strip_fences_from_clean skip s : has_fence (strip_fences_from skip s) = false.
Proof.
  revert skip. induction s as [|c s IH]; intros skip; [by destruct skip|].
  destruct skip as [|k]; [|apply IH].
  rewrite strip_fences_cons.
  destruct (JS.startsWith (JS.lit "```json") (c :: s)); [apply IH|].
  destruct (JS.startsWith fence (c :: s)) eqn:Hfence; [apply IH|].
  change (has_fence (c :: strip_fences_from 0 s)) with
    (JS.startsWith fence (c :: strip_fences_from 0 s)
     || has_fence (strip_fences_from 0 s)).
  rewrite IH, orb_false_r.
  destruct (JS.startsWith fence (c :: strip_fences_from 0 s)) eqn:Hout; [|done].
  apply strip_fences_no_new_fence in Hout. congruence.
Qed.

Lemma has_fence_cons c s :
  has_fence (c :: s) = JS.startsWith fence (c :: s) || has_fence s.
Proof. reflexivity. Qed.

Lemma strip_fences_fix s : has_fence s = false → strip_fences s = s.
Proof.
  unfold strip_fences. induction s as [|c s IH]; [done|].
  rewrite has_fence_cons. intros [Hhere Hrest]%orb_false_iff.
  rewrite strip_fences_cons, Hhere.
  destruct (JS.startsWith (JS.lit "```json") (c :: s)) eqn:Hjson.
  { apply startsWith_json_fence in Hjson. congruence. }
  by rewrite IH.
Qed.

Lemma has_fence_app s t :
  has_fence (s ++ t) = false → has_fence s = false ∧ has_fence t = false.
Proof.
  induction s as [|c s IH]; [done|]. simpl app. rewrite !has_fence_cons.
  intros [Hhere Hrest]%orb_false_iff. destruct (IH Hrest) as [Hs Ht].
  split; [|done]. rewrite Hs, orb_false_r.
  destruct (JS.startsWith fence (c :: s)) eqn:Hc; [|done].
  apply (startsWith_app_r _ _ t) in Hc. simpl app in Hc. congruence.
Qed.

Lemma clean_no_fence raw : has_fence (clean raw) = false.
Proof.
  unfold clean.
  destruct (trim_split (strip_fences (JS.trim raw))) as (pre & post & Hs & _).
  pose proof (strip_fences_from_clean 0 (JS.trim raw)) as Hclean.
  fold (strip_fences (JS.trim raw)) in Hclean. rewrite Hs in Hclean.
  apply has_fence_app in Hclean as [_ Hclean].
  by apply has_fence_app in Hclean as [Hclean _].
Qed.

Lemma clean_clean raw : clean (clean raw) = clean raw.
Proof.
  unfold clean at 1.
  assert (Htrim : JS.trim (clean raw) = clean raw) by apply trim_trim.
  rewrite Htrim, (strip_fences_fix (clean raw)) by apply clean_no_fence.
  done.
Qed.

End Fences.

(** X1.  Cleaning a reply leaves no code fence and no white space at the
    ends, and cleaning twice is cleaning once: [parseJSON] on a text its
    caller has already cleaned, as in [runDataChecker], parses that very
    text. *)
Theorem clean_is_idempotent (raw : jsstring) :
  has_fence (clean raw) = false
  ∧ JS.trim (clean raw) = clean raw
  ∧ clean (clean raw) = clean raw
  ∧ ∀ T (JSON_parse : jsstring → option T),
      parseJSON JSON_parse (clean raw) = parseJSON JSON_parse raw.
Proof.
  split; [apply clean_no_fence|]. split; [apply trim_trim|].
  split; [apply clean_clean|].
  intros T JSON_parse. unfold parseJSON. by rewrite clean_clean.
Qed.

(** ** More on the hallucination guard *)

Section GuardMore.

Implicit Types (checkerResult : option DataCheckerResponse)
               (originalChunks : list Chunk).

Lemma validatedDocs_nil_iff checkerResult originalChunks :
  validatedDocs checkerResult originalChunks = [] ↔
  ∀ d, d ∈ selected_documents checkerResult → id d ∉ chunk_id <$> originalChunks.
Proof.
  split.
  - intros Hnil d Hd Hid.
    assert (Hin : d ∈ validatedDocs checkerResult originalChunks)
      by (by apply elem_of_validatedDocs).
    rewrite Hnil in Hin. inversion Hin.
  - intros Hnone.
    destruct (validatedDocs checkerResult originalChunks) as [|d ds] eqn:E; [done|].
    assert (Hd : d ∈ validatedDocs checkerResult originalChunks)
      by (rewrite E; left).
    apply elem_of_validatedDocs in Hd as [Hsel Hid]. by destruct (Hnone d).
Qed.

(** The two branches of the guard, told apart by the surviving documents. *)
Lemma validate_cases checkerResult originalChunks :
  (validatedDocs checkerResult originalChunks = []
   ∧ validateAndGetRelevantChunks checkerResult originalChunks =
     {| Validated.chunks := take 2 originalChunks;
        Validated.hadValidation := false; Validated.hadFallback := true |})
  ∨ ((∃ d, d ∈ selected_documents checkerResult
            ∧ id d ∈ chunk_id <$> originalChunks)
     ∧ validateAndGetRelevantChunks checkerResult originalChunks =
       {| Validated.chunks :=
            filter (λ c, chunk_id c ∈ id <$> selected_documents checkerResult)
                   originalChunks;
          Validated.hadValidation := true; Validated.hadFallback := false |}).
Proof.
  destruct (validatedDocs checkerResult originalChunks) as [|d ds] eqn:E.
  - left. split; [done|]. by apply validate_none_selected, validatedDocs_nil_iff.
  - right. assert (Hd : d ∈ validatedDocs checkerResult originalChunks)
      by (rewrite E; left).
    apply elem_of_validatedDocs in Hd as [Hsel Hid].
    split; [by exists d|]. by apply (validate_some_selected _ _ d).
Qed.

Lemma guard_sublist_of checkerResult originalChunks :
  Validated.chunks (validateAndGetRelevantChunks checkerResult originalChunks)
  `sublist_of` originalChunks.
Proof.
  destruct (validate_cases checkerResult originalChunks) as [[_ ->] | [_ ->]]; simpl.
  - apply sublist_take.
  - apply sublist_filter.
Qed.

Lemma guard_nil_iff checkerResult originalChunks :
  Validated.chunks (validateAndGetRelevantChunks checkerResult originalChunks) = []
  ↔ originalChunks = [].
Proof.
  split; [|intros ->; by rewrite guard_on_empty].
  destruct (validate_cases checkerResult originalChunks)
    as [[_ ->] | [(d & Hsel & Hid) ->]]; simpl.
  - by destruct originalChunks.
  - intros Hnil. apply list_elem_of_fmap in Hid as (c & Hc & Hin).
    assert (Hkept : c ∈ filter (λ c, chunk_id c ∈ id <$> selected_documents checkerResult)
                             originalChunks).
    { apply list_elem_of_filter. split; [|done].
      rewrite <- Hc. by apply list_elem_of_fmap_2. }
    rewrite Hnil in Hkept. inversion Hkept.
Qed.

End GuardMore.

(** X2.  Whatever the decision, the guard hands on a sublist of the
    retrieved candidates (no new chunk, no repeat, the retrieval order), so
    no more of them than were retrieved, at most two on a fallback, and with
    distinct identifiers when the candidates have distinct identifiers. *)
Theorem guard_returns_sublist
    (checkerResult : option DataCheckerResponse) (originalChunks : list Chunk) :
  let v := validateAndGetRelevantChunks checkerResult originalChunks in
  Validated.chunks v `sublist_of` originalChunks
  ∧ length (Validated.chunks v) ≤ length originalChunks
  ∧ (Validated.hadFallback v = true → length (Validated.chunks v) ≤ 2)
  ∧ (NoDup (chunk_id <$> originalChunks) → NoDup (chunk_id <$> Validated.chunks v)).
Proof.
  intros v. subst v.
  pose proof (guard_sublist_of checkerResult originalChunks) as Hsub.
  split; [done|]. split; [by apply sublist_length|]. split.
  - destruct (validate_cases checkerResult originalChunks) as [[_ ->] | [_ ->]];
      simpl; [|done].
    intros _. rewrite length_take. lia.
  - intros Hkey. eapply sublist_NoDup; [done|]. by apply (fmap_sublist chunk_id).
Qed.

(** X3.  The guard hands the generator nothing only when nothing was
    retrieved: for a non-empty candidate list its selection is never
    empty, whatever the filter decided. *)
Theorem guard_empty_only_on_empty_retrieval
    (checkerResult : option DataCheckerResponse) (originalChunks : list Chunk) :
  Validated.chunks (validateAndGetRelevantChunks checkerResult originalChunks) = []
  ↔ originalChunks = [].
Proof. apply guard_nil_iff. Qed.

(** X4.  The two flags of the guard are never both set or both clear, and
    the fallback is reported exactly when no selected identifier is among
    the candidates. *)
Theorem guard_flags
    (checkerResult : option DataCheckerResponse) (originalChunks : list Chunk) :
  let v := validateAndGetRelevantChunks checkerResult originalChunks in
  Validated.hadValidation v = negb (Validated.hadFallback v)
  ∧ (Validated.hadFallback v = true ↔
     ∀ d, d ∈ selected_documents checkerResult →
          id d ∉ chunk_id <$> originalChunks).
Proof.
  intros v. subst v.
  destruct (validate_cases checkerResult originalChunks)
    as [[Hnil ->] | [(d & Hsel & Hid) ->]]; simpl.
  - split; [done|]. split; [|done]. intros _. by apply validatedDocs_nil_iff.
  - split; [done|]. split; [done|]. intros Hnone. by destruct (Hnone d).
Qed.

(** X5.  Only the set of selected identifiers matters to the guard: two
    decisions that select the same identifiers, in any order and with any
    repeats or reasons, are validated to the same result. *)
Theorem guard_reads_decision_as_set
    (checkerResult checkerResult' : option DataCheckerResponse)
    (originalChunks : list Chunk) :
  (∀ i, i ∈ id <$> selected_documents checkerResult ↔
        i ∈ id <$> selected_documents checkerResult') →
  validateAndGetRelevantChunks checkerResult originalChunks
  = validateAndGetRelevantChunks checkerResult' originalChunks.
Proof.
  intros Hsame.
  assert (Hnone : (∀ d, d ∈ selected_documents checkerResult →
                        id d ∉ chunk_id <$> originalChunks) ↔
                  (∀ d, d ∈ selected_documents checkerResult' →
                        id d ∉ chunk_id <$> originalChunks)).
  { split; intros H d Hd Hid.
    - assert (Hi : id d ∈ id <$> selected_documents checkerResult)
        by (apply Hsame; by apply list_elem_of_fmap_2).
      apply list_elem_of_fmap in Hi as (d' & Heq & Hd').
      apply (H d' Hd'). by rewrite <- Heq.
    - assert (Hi : id d ∈ id <$> selected_documents checkerResult')
        by (apply Hsame; by apply list_elem_of_fmap_2).
      apply list_elem_of_fmap in Hi as (d' & Heq & Hd').
      apply (H d' Hd'). by rewrite <- Heq. }
  destruct (validate_cases checkerResult originalChunks)
    as [[Hnil ->] | [(d & Hsel & Hid) ->]].
  - symmetry. apply validate_none_selected, Hnone. by apply validatedDocs_nil_iff.
  - assert (Hi : id d ∈ id <$> selected_documents checkerResult')
      by (apply Hsame; by apply list_elem_of_fmap_2).
    apply list_elem_of_fmap in Hi as (d' & Heq & Hd').
    rewrite (validate_some_selected checkerResult' originalChunks d')
      by (done || by rewrite <- Heq).
    f_equal. apply filter_ext_in. intros c _. apply Hsame.
Qed.

Lemma guard_reads_decision_as_set_witness :
  validateAndGetRelevantChunks (Sample.decision [Sample.b; Sample.a; Sample.b])
    Sample.ranked
  = validateAndGetRelevantChunks (Sample.decision [Sample.a; Sample.b]) Sample.ranked.
Proof.
  apply guard_reads_decision_as_set.
  intros i.
  change (id <$> selected_documents (Sample.decision [Sample.b; Sample.a; Sample.b]))
    with [Sample.b; Sample.a; Sample.b].
  change (id <$> selected_documents (Sample.decision [Sample.a; Sample.b]))
    with [Sample.a; Sample.b].
  rewrite !elem_of_cons, !elem_of_nil. tauto.
Defined.

(** X6.  Validating a decision against what the guard already returned
    changes nothing: the guard is idempotent in its candidate list. *)
Theorem guard_is_idempotent
    (checkerResult : option DataCheckerResponse) (originalChunks : list Chunk) :
  validateAndGetRelevantChunks checkerResult
    (Validated.chunks (validateAndGetRelevantChunks checkerResult originalChunks))
  = validateAndGetRelevantChunks checkerResult originalChunks.
Proof.
  destruct (validate_cases checkerResult originalChunks)
    as [[Hnil ->] | [(d & Hsel & Hid) ->]]; simpl.
  - rewrite validate_none_selected.
    + by rewrite take_take.
    + intros d Hd Hid. apply (proj1 (validatedDocs_nil_iff _ _) Hnil d Hd).
      apply list_elem_of_fmap in Hid as (c & -> & Hc).
      apply list_elem_of_fmap_2.
      by apply (sublist_subseteq _ _ (sublist_take originalChunks 2)).
  - apply list_elem_of_fmap in Hid as (c & Hc & Hin).
    rewrite (validate_some_selected _ _ d Hsel).
    + f_equal. rewrite list_filter_filter. apply filter_ext_in. tauto.
    + rewrite Hc. apply list_elem_of_fmap_2, list_elem_of_filter.
      split; [|done]. rewrite <- Hc. by apply list_elem_of_fmap_2.
Qed.

(** ** The controller, beyond the claims *)

Section RequestTime.

Lemma extends_refl s : extends s s.
Proof. by repeat split. Qed.

Lemma extends_trans s1 s2 s3 : extends s1 s2 → extends s2 s3 → extends s1 s3.
Proof.
  intros (Hd & Ht & Hc) (Hd' & Ht' & Hc'). repeat split; [congruence..|].
  by etrans.
Qed.

Lemma extends_after s cs : extends s (after s cs).
Proof. repeat split; simpl. by apply prefix_app_r. Qed.

Context {A B : Type}.

Lemma request_time_ret (a : A) : request_time (ret a).
Proof. intros s. apply extends_refl. Qed.

Lemma request_time_throw e : request_time (throw (A:=A) e).
Proof. intros s. apply extends_refl. Qed.

Lemma request_time_await (r : Result A) : request_time (await r).
Proof. intros s. apply extends_refl. Qed.

Lemma request_time_bind (m : M A) (k : A → M B) :
  request_time m → (∀ a, request_time (k a)) → request_time (bind m k).
Proof.
  intros Hm Hk s. unfold bind. specialize (Hm s).
  destruct (m s) as [[a|e] s1]; simpl in *; [|done].
  eapply extends_trans; [done | apply Hk].
Qed.

Lemma request_time_try_catch (m h : M A) :
  request_time m → request_time h → request_time (try_catch m h).
Proof.
  intros Hm Hh s. unfold try_catch. specialize (Hm s).
  destruct (m s) as [[a|e] s1]; simpl in *; [done|].
  eapply extends_trans; [done | apply Hh].
Qed.

End RequestTime.

Lemma request_time_get : request_time get.
Proof. intros s. apply extends_refl. Qed.

Lemma request_time_enter c : request_time (enter c).
Proof. intros s. apply extends_after. Qed.

Lemma request_time_parseJSON {T} (JSON_parse : jsstring → option T) raw :
  request_time (parseJSON JSON_parse raw).
Proof.
  unfold parseJSON.
  destruct (JSON_parse (clean raw)); [apply request_time_ret | apply request_time_throw].
Qed.

Create HintDb request_time discriminated.

#[local] Hint Resolve request_time_ret request_time_throw request_time_await
  request_time_get request_time_enter request_time_parseJSON
  request_time_try_catch : request_time.

Ltac request_time :=
  repeat first
    [ solve [auto with request_time]
    | apply request_time_bind; [|intros ?]
    | apply request_time_try_catch
    | match goal with
      | |- request_time (if ?b then _ else _) => destruct b
      | |- request_time (match ?x with _ => _ end) => destruct x
      end ].

Section Stages.

Context (w : World).

Lemma request_time_embedQuestion question : request_time (embedQuestion w question).
Proof. unfold embedQuestion. request_time. Qed.

Lemma request_time_retrieveChunks embedding topK :
  request_time (retrieveChunks w embedding topK).
Proof. unfold retrieveChunks. request_time. Qed.

Lemma request_time_fetchChunksByIds ids : request_time (fetchChunksByIds w ids).
Proof. unfold fetchChunksByIds. request_time. Qed.

Lemma request_time_runDataChecker question chunks :
  request_time (runDataChecker w question chunks).
Proof. unfold runDataChecker, buildPrompt, callGemini. request_time. Qed.

Lemma request_time_runRespuestaFinal question relevantChunks :
  request_time (runRespuestaFinal w question relevantChunks).
Proof. unfold runRespuestaFinal, buildPrompt, callGemini. request_time. Qed.

Lemma request_time_Monolith_runDataChecker question chunks :
  request_time (Monolith.runDataChecker w question chunks).
Proof. unfold Monolith.runDataChecker, buildPrompt, callGemini. request_time. Qed.

Lemma request_time_Monolith_runRespuestaFinal question relevantChunks :
  request_time (Monolith.runRespuestaFinal w question relevantChunks).
Proof. unfold Monolith.runRespuestaFinal, buildPrompt, callGemini. request_time. Qed.

#[local] Hint Resolve request_time_embedQuestion request_time_retrieveChunks
  request_time_fetchChunksByIds request_time_runDataChecker
  request_time_runRespuestaFinal request_time_Monolith_runDataChecker
  request_time_Monolith_runRespuestaFinal : request_time.

Lemma request_time_executeRAGPipeline question :
  request_time (executeRAGPipeline w question).
Proof. unfold executeRAGPipeline. request_time. Qed.

Lemma request_time_executeRAGPipelineMinimal question :
  request_time (executeRAGPipelineMinimal w question).
Proof. unfold executeRAGPipelineMinimal. request_time. Qed.

Lemma request_time_ask_pipeline question :
  request_time (Monolith.ask_pipeline w question).
Proof. unfold Monolith.ask_pipeline. request_time. Qed.

Lemma request_time_resolve_pipeline question :
  request_time (RagTsResolve.resolve_pipeline w question).
Proof. unfold RagTsResolve.resolve_pipeline. request_time. Qed.

End Stages.

(** X7.  Serving a request never touches what startup decided: after any of
    the four endpoints, whether it answered or failed, [EFFECTIVE_DIM] and
    [TRUNCATE_EMBEDDING] are what they were, and the calls made before are
    still the beginning of the record. *)
Theorem requests_keep_dimension_state (w : World) (input : option jsstring) (s : State) :
  extends s (Routes.ask w input s).2
  ∧ extends s (Routes.resolve w input s).2
  ∧ extends s (Monolith.ask w input s).2
  ∧ extends s (RagTsResolve.resolve w input s).2.
Proof.
  unfold Routes.ask, Routes.resolve, Monolith.ask, RagTsResolve.resolve, Routes.blank.
  destruct input as [q|]; [|by repeat split].
  case_bool_decide; [by repeat split|].
  pose proof (request_time_executeRAGPipeline w q s) as H1.
  pose proof (request_time_executeRAGPipelineMinimal w q s) as H2.
  pose proof (request_time_ask_pipeline w q s) as H3.
  pose proof (request_time_resolve_pipeline w q s) as H4.
  destruct (executeRAGPipeline w q s) as [[?|?] ?],
           (executeRAGPipelineMinimal w q s) as [[?|?] ?],
           (Monolith.ask_pipeline w q s) as [[?|?] ?],
           (RagTsResolve.resolve_pipeline w q s) as [[?|?] ?]; done.
Qed.

(** X8.  [executeRAGPipelineMinimal] is [executeRAGPipeline] with the
    rationale and the sources dropped: the same calls, the same failure,
    and on success the same answer text and [handoff] flag. *)
Theorem minimal_pipeline_projects (w : World) (question : jsstring) (s : State) :
  executeRAGPipelineMinimal w question s =
  match executeRAGPipeline w question s with
  | (Ok result, s') =>
      (Ok {| ResolveResult.replyText := AskResult.answer result;
             ResolveResult.handoff := AskResult.handoff result |}, s')
  | (Throw e, s') => (Throw e, s')
  end.
Proof.
  unfold executeRAGPipelineMinimal, executeRAGPipeline, bind.
  destruct (embedQuestion w question s) as [[embedding|e] s1]; [|done].
  destruct (retrieveChunks w embedding Config.topK s1) as [[chunks|e] s2]; [|done].
  destruct (runDataChecker w question chunks s2) as [[checkerResult|e] s3]; [|done].
  by destruct (runRespuestaFinal w question _ s3) as [[finalAnswer|e] s4].
Qed.

(** X9.  A reply that is not JSON never fails the request.  When the
    collaborators answer, the filter's reply is null, empty or rejected by
    [JSON.parse], and the generator's reply is rejected by [JSON.parse], the
    controller returns a result: the generator's text, trimmed, as the
    answer, the generic rationale, [handoff = false], and the first two
    candidates as sources. *)
Theorem unparsable_replies_never_fail
    (w : World) (question : jsstring) (s : State) (chunks : list Chunk)
    (raw raw' : jsstring) :
  retrieved w Config.topK question s = Ok chunks →
  reply_to w Config.dataChecker (dataChecker_vars question chunks) = Ok raw →
  clean raw = JS.lit "null" ∨ clean raw = JS.empty
  ∨ JSON_parse_checker w (clean raw) = None →
  reply_to w Config.respuestaFinal (respuestaFinal_vars question (take 2 chunks))
  = Ok raw' →
  JSON_parse_final w (clean raw') = None →
  executeRAGPipeline w question s =
  (Ok {| AskResult.answer := JS.trim raw';
         AskResult.logic := JS.lit "Respuesta generada directamente.";
         AskResult.sources := sourceReference <$> take 2 chunks;
         AskResult.handoff := false |},
   after s [Call_embedQuestion question; Call_retrieveChunks Config.topK;
            Call_runDataChecker chunks; Call_runRespuestaFinal (take 2 chunks)]).
Proof.
  intros Hret Hraw Hnull Hraw' Hfinal.
  rewrite executeRAGPipeline_run. rewrite retrieved_run in Hret.
  destruct (embedContent w question) as [vec|e]; [|done].
  destruct (document_chunks w) as [table|e]; [|done].
  injection Hret as Hret. simpl. rewrite Hret, Hraw.
  assert (Hdecision : decision_of w raw = None).
  { unfold decision_of. rewrite clean_clean.
    destruct Hnull as [-> | [-> | Hnull]]; [done..|].
    by destruct (_ || _). }
  rewrite Hdecision.
  rewrite validate_none_selected by (intros d Hd; inversion Hd).
  simpl. rewrite Hraw'. unfold answer_of. rewrite Hfinal. done.
Qed.

Lemma unparsable_replies_never_fail_witness :
  (executeRAGPipeline Sample.plain_text Sample.question initial).1 =
  Ok {| AskResult.answer := JS.lit "Hola.";
        AskResult.logic := JS.lit "Respuesta generada directamente.";
        AskResult.sources :=
          [sourceReference (Sample.chunk Sample.a 0.5);
           sourceReference (Sample.chunk Sample.b 0.25)];
        AskResult.handoff := false |}.
Proof.
  rewrite (unparsable_replies_never_fail Sample.plain_text Sample.question initial
             Sample.ranked (JS.lit "Hola." ++ JS.nl) (JS.lit "Hola." ++ JS.nl)).
  - vm_compute. reflexivity.
  - vm_compute. reflexivity.
  - reflexivity.
  - right. right. reflexivity.
  - reflexivity.
  - reflexivity.
Defined.

(** The generation provider is out of quota: the filter stage throws, the
    controller throws the same error, and the generator is not entered. *)
Example quota_outage_run :
  executeRAGPipeline Outage.quota Sample.question initial =
  (Throw (ExternalFailure (JS.lit "429 quota")),
   after initial
     [Call_embedQuestion Sample.question; Call_retrieveChunks 4;
      Call_runDataChecker Sample.ranked]).
Proof. vm_compute. reflexivity. Qed.


(** ** The vector search and the fetch by identifier, together *)

Section Store.

Context (w : World).

Implicit Types (table : list Row) (v : list float) (ids : list jsstring).

Lemma select_nearest_ids table v topK :
  chunk_id <$> select_nearest w table v topK
  = row_chunk_id <$> nearest_rows w table v topK.
Proof. unfold select_nearest, nearest_rows. by rewrite <- list_fmap_compose. Qed.

Lemma nearest_rows_split table v topK :
  ∃ others, table ≡ₚ nearest_rows w table v topK ++ others.
Proof.
  unfold nearest_rows. eexists (drop topK _).
  by rewrite take_drop, merge_sort_Permutation.
Qed.

Lemma select_nearest_length table v topK :
  length (select_nearest w table v topK) = topK `min` length table.
Proof.
  unfold select_nearest. rewrite length_fmap, length_take.
  by rewrite (Permutation_length (merge_sort_Permutation _ table)).
Qed.

Lemma select_by_ids_ext table ids ids' :
  (∀ i, i ∈ ids ↔ i ∈ ids') → select_by_ids table ids = select_by_ids table ids'.
Proof.
  intros Hsame. unfold select_by_ids. f_equal. apply filter_ext_in. intros r _. apply Hsame.
Qed.

End Store.

(** X11.  A vector search returns at most [topK] candidates; each one
    repeats the identifier, file, section and text of a row of the table,
    and with identifiers unique in the table no candidate comes twice. *)
Theorem retrieveChunks_at_most_topK
    (w : World) (table : list Row) (embedding : list float) (topK : nat) (s : State) :
  document_chunks w = Ok table →
  ∃ found,
    (retrieveChunks w embedding topK s).1 = Ok found
    ∧ length found ≤ topK
    ∧ (∀ c, c ∈ found →
         ∃ r, r ∈ table
              ∧ chunk_id c = row_chunk_id r ∧ source_file c = row_source_file r
              ∧ section_title c = row_section_title r ∧ text c = row_text r)
    ∧ (NoDup (row_chunk_id <$> table) → NoDup (chunk_id <$> found)).
Proof.
  intros Htable. exists (select_nearest w table embedding topK).
  rewrite retrieveChunks_run, Htable. simpl.
  split; [done|]. split; [rewrite select_nearest_length; apply Nat.le_min_l|].
  destruct (nearest_rows_split w table embedding topK) as [others Hperm].
  split.
  - intros c Hc. unfold select_nearest in Hc.
    apply list_elem_of_fmap in Hc as (r & -> & Hr). exists r. split; [|done].
    rewrite Hperm. apply elem_of_app. by left.
  - intros Hkey. rewrite select_nearest_ids.
    rewrite Hperm, fmap_app in Hkey. by apply NoDup_app in Hkey as [? _].
Qed.

Lemma retrieveChunks_at_most_topK_witness :
  ∃ found,
    (retrieveChunks Sample.grounded Sample.vec3 2 initial).1 = Ok found
    ∧ length found ≤ 2
    ∧ NoDup (chunk_id <$> found).
Proof.
  destruct (retrieveChunks_at_most_topK Sample.grounded Sample.table Sample.vec3 2
              initial)
    as (found & Hfound & Hlen & _ & Hkey).
  - reflexivity.
  - exists found. split; [done|]. split; [exact Hlen|]. apply Hkey.
    vm_compute. repeat constructor;
      intros Hin; repeat (apply elem_of_cons in Hin as [Hin|Hin]; [discriminate|]);
      inversion Hin.
Defined.

(** X12.  The fetch by identifier reads its argument as a set: when it
    answers for two lists with the same members, whatever their order and
    repeats, it answers with the same rows, up to the order of the rows. *)
Theorem fetchChunksByIds_reads_ids_as_set
    (w : World) (ids ids' : list jsstring) (s : State) (found found' : list Chunk) :
  (∀ i, i ∈ ids ↔ i ∈ ids') →
  (fetchChunksByIds w ids s).1 = Ok found →
  (fetchChunksByIds w ids' s).1 = Ok found' →
  found ≡ₚ found'.
Proof.
  intros Hsame. rewrite !fetchChunksByIds_run. simpl.
  destruct ids as [|i ids], ids' as [|i' ids'].
  - by intros [= <-] [= <-].
  - exfalso. assert (Hin : i' ∈ []) by (apply Hsame; left). inversion Hin.
  - exfalso. assert (Hin : i ∈ []) by (apply Hsame; left). inversion Hin.
  - destruct (document_chunks w) as [table|]; [|done].
    intros [= <-] [= <-]. by rewrite (select_by_ids_ext table _ _ Hsame).
Qed.

Lemma fetchChunksByIds_reads_ids_as_set_witness :
  select_by_ids Sample.table [Sample.a; Sample.b; Sample.a]
  ≡ₚ select_by_ids Sample.table [Sample.b; Sample.a].
Proof.
  apply (fetchChunksByIds_reads_ids_as_set Sample.grounded
           [Sample.a; Sample.b; Sample.a] [Sample.b; Sample.a] initial).
  - intros i. rewrite !elem_of_cons, !elem_of_nil. tauto.
  - reflexivity.
  - reflexivity.
Defined.

(** X13.  Fetching again the candidates of a search brings back the same
    rows: with identifiers unique in the table, the fetch of the
    candidates' identifiers returns, up to order, chunks with the
    candidates' identifier, file, section and text. *)
Theorem refetch_brings_candidates_back
    (w : World) (table : list Row) (embedding : list float) (topK : nat) :
  NoDup (row_chunk_id <$> table) →
  let candidates := select_nearest w table embedding topK in
  let fields c := (chunk_id c, source_file c, section_title c, text c) in
  fields <$> select_by_ids table (chunk_id <$> candidates) ≡ₚ fields <$> candidates.
Proof.
  intros Hkey candidates fields. subst candidates.
  destruct (nearest_rows_split w table embedding topK) as [others Hperm].
  set (rows := nearest_rows w table embedding topK) in *.
  assert (Hfetched :
    filter (λ r, row_chunk_id r ∈ row_chunk_id <$> rows) table ≡ₚ rows).
  { rewrite Hperm. rewrite filter_app.
    rewrite Hperm, fmap_app in Hkey.
    apply NoDup_app in Hkey as (_ & Hdisjoint & _).
    rewrite (filter_ext_in _ (λ _, True) rows)
      by (intros r Hr; split; [done | intros _; by apply list_elem_of_fmap_2]).
    rewrite (filter_ext_in _ (λ _, False) others).
    2:{ intros r Hr. split; [|done]. intros Hin.
        apply (Hdisjoint _ Hin). by apply list_elem_of_fmap_2. }
    assert (HT : ∀ l : list Row, filter (λ _, True) l = l).
    { induction l as [|x l IH]; [done|]. by rewrite filter_cons_True, IH. }
    assert (HF : ∀ l : list Row, filter (λ _, False) l = []).
    { induction l as [|x l IH]; [done|]. by rewrite filter_cons_False, IH by tauto. }
    by rewrite HT, HF, app_nil_r. }
  rewrite select_nearest_ids. fold rows.
  unfold select_by_ids, select_nearest. fold (nearest_rows w table embedding topK).
  fold rows. rewrite <- !list_fmap_compose.
  rewrite Hfetched. done.
Qed.

Lemma refetch_brings_candidates_back_witness :
  (λ c, (chunk_id c, source_file c, section_title c, text c))
    <$> select_by_ids Sample.table
          (chunk_id <$> select_nearest Sample.grounded Sample.table Sample.vec3 2)
  ≡ₚ (λ c, (chunk_id c, source_file c, section_title c, text c))
    <$> select_nearest Sample.grounded Sample.table Sample.vec3 2.
Proof.
  apply (refetch_brings_candidates_back Sample.grounded Sample.table Sample.vec3 2).
  vm_compute. repeat constructor;
    intros Hin; repeat (apply elem_of_cons in Hin as [Hin|Hin]; [discriminate|]);
    inversion Hin.
Defined.

(** ** The answers and their sources *)

(** X14.  When the controller answers, its sources are the references of a
    sublist of the retrieved candidates, at most [topK] = 4 of them, and
    there is none only if nothing was retrieved. *)
Theorem answer_cites_retrieved_candidates
    (w : World) (question : jsstring) (s : State) (result : AskResult.t) :
  (executeRAGPipeline w question s).1 = Ok result →
  ∃ originalChunks relevantChunks,
    retrieved w Config.topK question s = Ok originalChunks
    ∧ relevantChunks `sublist_of` originalChunks
    ∧ AskResult.sources result = sourceReference <$> relevantChunks
    ∧ length (AskResult.sources result) ≤ 4
    ∧ (AskResult.sources result = [] ↔ originalChunks = []).
Proof.
  rewrite executeRAGPipeline_run, retrieved_run.
  destruct (embedContent w question) as [vec|e]; [|done].
  destruct (document_chunks w) as [table|e]; [|done]. simpl.
  set (chunks := select_nearest w table (aligned s vec) Config.topK).
  destruct (reply_to w Config.dataChecker _) as [raw|e]; [|done].
  destruct (reply_to w Config.respuestaFinal _) as [raw'|e]; [|done].
  intros [= <-]. simpl.
  pose proof (guard_sublist_of (decision_of w raw) chunks) as Hsub.
  exists chunks, (Validated.chunks (validateAndGetRelevantChunks (decision_of w raw) chunks)).
  split; [done|]. split; [done|]. split; [done|]. split.
  - rewrite length_fmap. apply sublist_length in Hsub.
    assert (length chunks ≤ 4); [|lia].
    unfold chunks. rewrite select_nearest_length. apply Nat.le_min_l.
  - rewrite <- guard_nil_iff. split; [apply fmap_nil_inv | by intros ->].
Qed.

Lemma answer_cites_retrieved_candidates_witness :
  ∃ originalChunks relevantChunks,
    retrieved Sample.grounded Config.topK Sample.question initial = Ok originalChunks
    ∧ relevantChunks `sublist_of` originalChunks
    ∧ [sourceReference (Sample.chunk Sample.a 0.5);
       sourceReference (Sample.chunk Sample.b 0.25)]
      = sourceReference <$> relevantChunks.
Proof.
  destruct (answer_cites_retrieved_candidates Sample.grounded Sample.question initial
    {| AskResult.answer := JS.lit "Treinta dias.";
       AskResult.logic := JS.lit "Lo dice el manual.";
       AskResult.sources :=
         [sourceReference (Sample.chunk Sample.a 0.5);
          sourceReference (Sample.chunk Sample.b 0.25)];
       AskResult.handoff := false |})
    as (originalChunks & relevantChunks & Hret & Hsub & Hsources & _).
  - vm_compute. reflexivity.
  - by exists originalChunks, relevantChunks.
Defined.

(** X15.  In [rag.ts], [/v1/resolve] is [/ask] with everything but the
    answer text dropped: the same calls, the same failure, the escalation
    message where [/ask] escalates, and a 400 with its own wording on the
    same inputs. *)
Theorem rag_ts_resolve_projects_ask (w : World) (input : option jsstring) (s : State) :
  RagTsResolve.resolve w input s =
  match Monolith.ask w input s with
  | (Monolith.Json body, s') => (Routes.Json (Monolith.answer body), s')
  | (Monolith.BadRequest _, s') =>
      (Routes.BadRequest (JS.lit "Missing or empty 'text' in request body"), s')
  | (Monolith.ServerError err, s') => (Routes.ServerError err, s')
  end.
Proof.
  unfold RagTsResolve.resolve, Monolith.ask, Routes.blank.
  destruct input as [q|]; [|done]. case_bool_decide; [done|].
  unfold RagTsResolve.resolve_pipeline, Monolith.ask_pipeline, bind.
  destruct (embedQuestion w q s) as [[embedding|e] s1]; [|done].
  destruct (retrieveChunks w embedding RagTs.TOP_K s1) as [[chunks|e] s2]; [|done].
  destruct (Monolith.runDataChecker w q chunks s2) as [[checkerResult|e] s3]; [|done].
  destruct (checkerResult ≫= relevant_documents) as [[|d relevant]|]; [done| |done].
  destruct (fetchChunksByIds (later w) _ s3) as [[relevantChunks|e] s4]; [|done].
  case_bool_decide; [done|].
  by destruct (Monolith.runRespuestaFinal w q relevantChunks s4) as [[finalAnswer|e] s5].
Qed.

(** X16.  In [rag.ts] an answer that is not an escalation is grounded in the
    store: the fetch by identifier was entered and found at least one row;
    the generator was entered with what it found, rows of the table as the
    fetch saw it, each with a requested identifier and similarity 0; and
    these are the sources of the answer. *)
Theorem rag_ts_answer_is_grounded
    (w : World) (question : option jsstring) (s : State) (body : Monolith.Body) :
  (Monolith.ask w question s).1 = Monolith.Json body →
  Monolith.escalated body = false →
  ∃ table selectedIds relevantChunks,
    document_chunks_later w = Ok table
    ∧ Call_fetchChunksByIds selectedIds ∈ calls (Monolith.ask w question s).2
    ∧ Call_runRespuestaFinal relevantChunks ∈ calls (Monolith.ask w question s).2
    ∧ relevantChunks ≠ []
    ∧ Monolith.sources body = sourceReference <$> relevantChunks
    ∧ (∀ c, c ∈ relevantChunks →
         chunk_id c ∈ selectedIds
         ∧ chunk_id c ∈ row_chunk_id <$> table
         ∧ similarity c = 0%float).
Proof.
  unfold Monolith.ask. destruct question as [q|]; [|done].
  case_bool_decide; [done|].
  rewrite Monolith_ask_pipeline_run.
  destruct (embedContent w q) as [vec|e]; [|done].
  destruct (document_chunks w) as [table|e]; [|done]. simpl.
  destruct (reply_to w RagTs.PROMPT_DATA_CHECKER _) as [raw|e]; [|done].
  destruct (decision_of w raw ≫= relevant_documents) as [[|d relevant]|]; simpl.
  1,3: by intros [= <-] [=].
  destruct (document_chunks_later w) as [table'|e]; [|done]. simpl.
  case_bool_decide as Hfound; simpl; [by intros [= <-] [=]|].
  destruct (reply_to w RagTs.PROMPT_RESPUESTA_FINAL _) as [raw'|e]; [|done].
  intros [= <-] _. simpl.
  exists table', (id d :: (id <$> relevant)),
    (select_by_ids table' (id d :: (id <$> relevant))).
  split; [done|]. split.
  { rewrite !elem_of_app. right. do 3 right. left. }
  split.
  { rewrite !elem_of_app. right. do 4 right. left. }
  split; [intros Hnil; apply Hfound; exact (f_equal length Hnil)|].
  split; [done|].
  intros c Hc. unfold select_by_ids in Hc.
  apply list_elem_of_fmap in Hc as (r & -> & Hr).
  apply list_elem_of_filter in Hr as [Hid Hr]. split; [done|]. split; [|done].
  simpl. by apply list_elem_of_fmap_2.
Qed.

Lemma rag_ts_answer_is_grounded_witness :
  ∃ relevantChunks,
    Call_runRespuestaFinal relevantChunks
      ∈ calls (Monolith.ask Sample.ingesting (Some Sample.question) initial).2
    ∧ [sourceReference (Sample.chunk Sample.b 0);
       sourceReference (Sample.chunk Sample.a 0)]
      = sourceReference <$> relevantChunks.
Proof.
  destruct (rag_ts_answer_is_grounded Sample.ingesting (Some Sample.question) initial
    {| Monolith.answer := JS.lit "Treinta dias.";
       Monolith.logic := Some (JS.lit "Lo dice el manual.");
       Monolith.citation := Some (JS.lit "manual.md");
       Monolith.sources :=
         [sourceReference (Sample.chunk Sample.b 0);
          sourceReference (Sample.chunk Sample.a 0)];
       Monolith.escalated := false |})
    as (table & selectedIds & relevantChunks & _ & _ & Hcall & _ & Hsources & _).
  - vm_compute. reflexivity.
  - reflexivity.
  - by exists relevantChunks.
Defined.

(** X17.  All four endpoints answer 400 on exactly the same inputs, a
    missing field or one that is white space only, and then enter no
    service function; on any other input none of them answers 400. *)
Theorem blank_input_is_rejected (w : World) (input : option jsstring) (s : State) :
  (Routes.blank input = true ↔
   input = None ∨ ∃ v, input = Some v ∧ all_white v)
  ∧ (Routes.blank input = true →
       Routes.ask w input s
       = (Routes.BadRequest (JS.lit "Missing or empty 'question' in request body"), s)
       ∧ Routes.resolve w input s
         = (Routes.BadRequest (JS.lit "Missing or empty 'text' in request body"), s)
       ∧ Monolith.ask w input s
         = (Monolith.BadRequest (JS.lit "Missing or empty 'question' in request body"), s)
       ∧ RagTsResolve.resolve w input s
         = (Routes.BadRequest (JS.lit "Missing or empty 'text' in request body"), s))
  ∧ (Routes.blank input = false →
       (∀ error, (Routes.ask w input s).1 ≠ Routes.BadRequest error)
       ∧ (∀ error, (Routes.resolve w input s).1 ≠ Routes.BadRequest error)
       ∧ (∀ error, (Monolith.ask w input s).1 ≠ Monolith.BadRequest error)
       ∧ (∀ error, (RagTsResolve.resolve w input s).1 ≠ Routes.BadRequest error)).
Proof.
  split; [|split].
  - destruct input as [v|]; simpl.
    + rewrite bool_decide_eq_true, trim_empty_iff. split.
      * intros Hv. right. by exists v.
      * by intros [[=] | (v' & [= <-] & Hv)].
    + split; [by left | done].
  - unfold Routes.ask, Routes.resolve, Monolith.ask, RagTsResolve.resolve.
    destruct input as [v|]; [|done]. unfold Routes.blank.
    intros Hblank. by rewrite Hblank.
  - unfold Routes.ask, Routes.resolve, Monolith.ask, RagTsResolve.resolve.
    destruct input as [v|]; [|done]. unfold Routes.blank.
    intros Hblank. rewrite Hblank.
    destruct (executeRAGPipeline w v s) as [[?|?] ?],
             (executeRAGPipelineMinimal w v s) as [[?|?] ?],
             (Monolith.ask_pipeline w v s) as [[?|?] ?],
             (RagTsResolve.resolve_pipeline w v s) as [[?|?] ?]; done.
Qed.

(** ** Startup: the environment and the column width *)

Section Environment.

Implicit Types (env : gmap jsstring jsstring) (keys : list jsstring).

Lemma unset_false env key :
  Env.unset env key = false ↔ ∃ v, env !! key = Some v ∧ v ≠ JS.empty.
Proof.
  unfold Env.unset. destruct (env !! key) as [v|].
  - rewrite bool_decide_eq_false. split; [by exists v | by intros (? & [= <-] & ?)].
  - split; [done | by intros (? & ? & ?)].
Qed.

Lemma unset_true env key :
  Env.unset env key = true ↔ env !! key = None ∨ env !! key = Some JS.empty.
Proof.
  unfold Env.unset. destruct (env !! key) as [v|].
  - rewrite bool_decide_eq_true. split; [intros ->; by right | by intros [|[= ->]]].
  - split; [by left | done].
Qed.

Lemma firstMissing_None env keys :
  Env.firstMissing env keys = None ↔ ∀ key, key ∈ keys → Env.unset env key = false.
Proof.
  induction keys as [|k keys IH]; simpl.
  - split; [intros _ key Hin; inversion Hin | done].
  - destruct (Env.unset env k) eqn:Hk.
    + split; [done|]. intros H. specialize (H k (list_elem_of_here _ _)). congruence.
    + rewrite IH. split.
      * intros H key [->|Hin]%elem_of_cons; auto.
      * intros H key Hin. apply H. by right.
Qed.

Lemma firstMissing_Some env keys key :
  Env.firstMissing env keys = Some key ↔
  ∃ before rest, keys = before ++ key :: rest
                 ∧ Env.unset env key = true
                 ∧ ∀ k, k ∈ before → Env.unset env k = false.
Proof.
  induction keys as [|k keys IH]; simpl.
  - split; [done|]. by intros ([|??] & ? & ? & _).
  - destruct (Env.unset env k) eqn:Hk.
    + split.
      * intros [= <-]. exists [], keys. split; [done|]. split; [done|].
        intros k' Hin. inversion Hin.
      * intros ([|k' before] & rest & Hkeys & Hkey & Hbefore).
        -- by injection Hkeys as -> _.
        -- injection Hkeys as <- _.
           specialize (Hbefore k (list_elem_of_here _ _)). congruence.
    + rewrite IH. split.
      * intros (before & rest & -> & Hkey & Hbefore).
        exists (k :: before), rest. split; [done|]. split; [done|].
        intros k' [->|Hin]%elem_of_cons; auto.
      * intros ([|k' before] & rest & Hkeys & Hkey & Hbefore).
        -- injection Hkeys as <- _. congruence.
        -- injection Hkeys as <- ->. exists before, rest.
           split; [done|]. split; [done|]. intros k'' Hin. apply Hbefore. by right.
Qed.

End Environment.

(** X18.  The check of the environment passes exactly when each of the
    five required variables is set to a non-empty string; otherwise the
    variable its error names is the first one, in the order of
    [REQUIRED_ENV], that is unset or empty. *)
Theorem required_env_is_checked (env : gmap jsstring jsstring) :
  (Env.validate env = None ↔
   ∀ key, key ∈ Env.REQUIRED_ENV → ∃ v, env !! key = Some v ∧ v ≠ JS.empty)
  ∧ (∀ key,
       Env.validate env = Some key ↔
       ∃ before rest,
         Env.REQUIRED_ENV = before ++ key :: rest
         ∧ (env !! key = None ∨ env !! key = Some JS.empty)
         ∧ ∀ k, k ∈ before → ∃ v, env !! k = Some v ∧ v ≠ JS.empty).
Proof.
  unfold Env.validate. split.
  - rewrite firstMissing_None. by setoid_rewrite unset_false.
  - intros key. rewrite firstMissing_Some.
    setoid_rewrite unset_false. by setoid_rewrite unset_true.
Qed.

Section ColumnType.

Implicit Types (s ds rest : jsstring).

Lemma startsWith_true p s : JS.startsWith p s = true ↔ ∃ r, s = p ++ r.
Proof.
  revert s. induction p as [|a p IH]; intros s; simpl.
  - split; [by exists s | done].
  - destruct s as [|b s]; [split; [done | by intros [? ?]]|].
    rewrite andb_true_iff, N.eqb_eq, IH. split.
    + intros [-> [r ->]]. by exists r.
    + intros [r [= -> ->]]. split; [done | by exists r].
Qed.

Lemma digits_prefix_split s :
  s = (digits_prefix s).1 ++ (digits_prefix s).2
  ∧ Forall (λ c, isDigit c = true) (digits_prefix s).1.
Proof.
  induction s as [|c s [IH1 IH2]]; simpl; [by split|].
  destruct (isDigit c) eqn:Hc; [|by split].
  destruct (digits_prefix s) as [ds rest]; simpl in *.
  split; [by rewrite IH1 at 1 | by constructor].
Qed.

Lemma digits_prefix_app ds c rest :
  Forall (λ c, isDigit c = true) ds → isDigit c = false →
  digits_prefix (ds ++ c :: rest) = (ds, c :: rest).
Proof.
  intros Hds Hc. induction Hds as [|d ds Hd _ IH]; simpl.
  - by rewrite Hc.
  - by rewrite Hd, IH.
Qed.

Lemma vector_dim_here_canonical ds post :
  ds ≠ [] → Forall (λ c, isDigit c = true) ds →
  vector_dim_here (JS.lit "vector(" ++ ds ++ JS.lit ")" ++ post) = Some ds.
Proof.
  intros Hne Hds. unfold vector_dim_here.
  rewrite (proj2 (startsWith_true _ _)) by by eexists.
  change (drop 7 (JS.lit "vector(" ++ ds ++ JS.lit ")" ++ post))
    with (ds ++ 41%N :: post).
  rewrite digits_prefix_app by done. by destruct ds.
Qed.

Lemma vector_dim_here_sound s ds :
  vector_dim_here s = Some ds →
  ds ≠ [] ∧ Forall (λ c, isDigit c = true) ds
  ∧ ∃ post, s = JS.lit "vector(" ++ ds ++ JS.lit ")" ++ post.
Proof.
  unfold vector_dim_here.
  destruct (JS.startsWith (JS.lit "vector(") s) eqn:Hstart; [|done].
  apply startsWith_true in Hstart as [r ->].
  change (drop 7 (JS.lit "vector(" ++ r)) with r.
  destruct (digits_prefix_split r) as [Hr Hdigits].
  destruct (digits_prefix r) as [[|d ds'] [|c rest]]; simpl in *; try done.
  destruct (c =? 41)%N eqn:Hc; [|done]. apply N.eqb_eq in Hc as ->.
  intros [= <-]. split; [done|]. split; [done|]. exists rest. by rewrite Hr.
Qed.

Lemma vector_dim_exec_sound colType ds :
  vector_dim_exec colType = Some ds → names_width colType ds.
Proof.
  induction colType as [|c colType IH]; [done|].
  cbn [vector_dim_exec]. destruct (vector_dim_here (c :: colType)) eqn:Hhere.
  - intros [= ->]. apply vector_dim_here_sound in Hhere as (? & ? & post & ?).
    repeat split; [done..|]. by exists [], post.
  - intros (? & ? & pre & post & ->)%IH. repeat split; [done..|].
    by exists (c :: pre), post.
Qed.

Lemma vector_dim_exec_here s ds :
  vector_dim_here s = Some ds → vector_dim_exec s = Some ds.
Proof. intros Hhere. destruct s; cbn [vector_dim_exec]; by rewrite Hhere. Qed.

Lemma vector_dim_exec_complete colType ds :
  names_width colType ds → is_Some (vector_dim_exec colType).
Proof.
  intros (Hne & Hds & pre & post & ->).
  induction pre as [|c pre IH].
  - exists ds. by apply vector_dim_exec_here, vector_dim_here_canonical.
  - simpl app. cbn [vector_dim_exec].
    destruct (vector_dim_here _); [by eexists | done].
Qed.

End ColumnType.

(** X19.  The width is read off the column type exactly when the type
    contains [vector(N)] for some decimal [N]: what is read is then such an
    [N], the digits themselves when the type begins with [vector(N)] as the
    catalog prints it, and without one [detectDimensions] throws its
    cannot-parse error and leaves [EFFECTIVE_DIM] and [TRUNCATE_EMBEDDING]
    as they were. *)
Theorem column_width_is_read (colType : jsstring) :
  (∀ ds, vector_dim_exec colType = Some ds → names_width colType ds)
  ∧ ((∃ ds, names_width colType ds) ↔ is_Some (vector_dim_exec colType))
  ∧ (∀ ds post,
       ds ≠ [] → Forall (λ c, isDigit c = true) ds →
       vector_dim_exec (JS.lit "vector(" ++ ds ++ JS.lit ")" ++ post) = Some ds)
  ∧ (∀ w s,
       col_type w = Ok (Some colType) →
       (¬ ∃ ds, names_width colType ds) →
       detectDimensions w s
       = (Throw (CannotParseColumnType colType), after s [Call_detectDimensions])).
Proof.
  split; [apply vector_dim_exec_sound|]. split; [split|split].
  - intros [ds Hds]. by eapply vector_dim_exec_complete.
  - intros [ds Hds]. exists ds. by apply vector_dim_exec_sound.
  - intros ds post Hne Hds.
    by apply vector_dim_exec_here, vector_dim_here_canonical.
  - intros w s Hcol Hnone. unfold detectDimensions. run. rewrite Hcol. simpl.
    destruct (vector_dim_exec colType) as [ds|] eqn:Hexec; [|done].
    destruct Hnone. exists ds. by apply vector_dim_exec_sound.
Qed.

Lemma detectDimensions_ok_inv w s :
  (detectDimensions w s).1 = Ok () →
  ∃ storedW modelW, storedWidth w = Some storedW ∧ modelWidth w = Some modelW.
Proof.
  unfold detectDimensions, storedWidth, modelWidth. run.
  destruct (col_type w) as [row|]; [|done]. simpl.
  destruct (vector_dim_exec (default JS.empty row)) as [ds|]; [|done]. run.
  destruct (embedContent w _) as [probe|]; [|done]. intros _. by eexists _, _.
Qed.

(** X20.  Once [detectDimensions] has returned, in whichever mode, the
    vectors the service searches with have the width of the column: for
    every later request (any state that serving requests can lead to), a
    provider vector of the model's width comes out of [embedQuestion] as a
    prefix of itself of exactly the stored width. *)
Theorem started_service_fits_column (w : World) (s : State) :
  TRUNCATE_EMBEDDING s = false →
  (detectDimensions w s).1 = Ok () →
  let started := (detectDimensions w s).2 in
  storedWidth w = Some (EFFECTIVE_DIM started)
  ∧ ∀ s' question vec,
      extends started s' →
      embedContent w question = Ok vec →
      modelWidth w = Some (length vec) →
      ∃ v, (embedQuestion w question s').1 = Ok v
           ∧ v `prefix_of` vec
           ∧ length v = EFFECTIVE_DIM started.
Proof.
  intros Hinit Hok started. subst started.
  destruct (detectDimensions_ok_inv w s Hok) as (storedW & modelW & Hs & Hm).
  revert Hok. rewrite (detectDimensions_run w s storedW modelW Hs Hm). simpl.
  case_bool_decide as Heq.
  - intros _. simpl. split; [done|].
    intros s' question vec (Hdim & Htrunc & _) Hvec Hmodel. simpl in *.
    exists vec. rewrite (embedQuestion_result w question s' vec Hvec).
    unfold aligned. rewrite Htrunc, Hinit. simpl.
    split; [done|]. split; [done|]. congruence.
  - destruct (isProd w); [done|]. case_bool_decide as Hlt; [|done].
    intros _. simpl. split; [done|].
    intros s' question vec (Hdim & Htrunc & _) Hvec Hmodel. simpl in *.
    assert (length vec = modelW) as Hlen by congruence.
    exists (take storedW vec). rewrite (embedQuestion_result w question s' vec Hvec).
    unfold aligned. rewrite Htrunc, Hdim. simpl.
    rewrite bool_decide_eq_true_2 by lia.
    split; [done|]. split; [apply prefix_take|]. rewrite length_take. lia.
Qed.

Lemma started_service_fits_column_witness :
  ∃ v, (embedQuestion Sample.grounded Sample.question
          (executeRAGPipeline Sample.grounded Sample.question
             (detectDimensions Sample.grounded initial).2).2).1 = Ok v
       ∧ length v = 3.
Proof.
  destruct (started_service_fits_column Sample.grounded initial) as [_ Hfits].
  - reflexivity.
  - vm_compute. reflexivity.
  - destruct (Hfits
      (executeRAGPipeline Sample.grounded Sample.question
         (detectDimensions Sample.grounded initial).2).2
      Sample.question Sample.vec3) as (v & Hv & _ & Hlen).
    + apply request_time_executeRAGPipeline.
    + reflexivity.
    + reflexivity.
    + exists v. split; [done|]. exact Hlen.
Defined.

(** ** Prompts: nothing is dropped *)

Lemma join_app (sep : jsstring) (l1 l2 : list jsstring) :
  l1 ≠ [] → l2 ≠ [] →
  JS.join sep (l1 ++ l2) = JS.join sep l1 ++ sep ++ JS.join sep l2.
Proof.
  intros H1 H2. induction l1 as [|x [|y l1] IH]; [done| |].
  - by destruct l2.
  - change (JS.join sep ((x :: y :: l1) ++ l2))
      with (x ++ sep ++ JS.join sep ((y :: l1) ++ l2)).
    rewrite IH by done.
    change (JS.join sep (x :: y :: l1)) with (x ++ sep ++ JS.join sep (y :: l1)).
    by rewrite <- !app_assoc.
Qed.

Lemma join_around (sep : jsstring) (before rest : list jsstring) (x : jsstring) :
  JS.join sep (before ++ x :: rest)
  = (if before is [] then [] else JS.join sep before ++ sep)
    ++ x
    ++ (if rest is [] then [] else sep ++ JS.join sep rest).
Proof.
  destruct before as [|b before], rest as [|r rest].
  - simpl. by rewrite app_nil_r.
  - done.
  - rewrite join_app by done. simpl JS.join at 2. by rewrite app_nil_r, <- !app_assoc.
  - rewrite join_app by done.
    change (JS.join sep (x :: r :: rest)) with (x ++ sep ++ JS.join sep (r :: rest)).
    by rewrite <- !app_assoc.
Qed.

(** X21.  [formatChunks] writes one block per chunk, in the order of the
    list and with the separator between neighbours only: around any chunk
    of the list stand the formatted chunks before it and the formatted
    chunks after it. *)
Theorem formatChunks_keeps_every_chunk (before rest : list Chunk) (c : Chunk) :
  formatChunks (before ++ c :: rest)
  = (if before is [] then [] else formatChunks before ++ document_separator)
    ++ document_block c
    ++ (if rest is [] then [] else document_separator ++ formatChunks rest).
Proof.
  unfold formatChunks, document_block, document_separator.
  rewrite fmap_app, fmap_cons, join_around.
  by destruct before, rest.
Qed.

(** X22.  Flattening a filled template drops no message: with at least one
    message, the prompt is the lines of the messages in their order, a
    blank line between neighbours, every line ending in the content of its
    message; the generic text of [toString] is used only when there is no
    message at all. *)
Theorem flattening_keeps_every_message
    (toUpperCase : jsstring → jsstring) (promptValue : Prompt.Value) :
  (∀ before m rest,
     Prompt.chosen promptValue = before ++ m :: rest →
     Prompt.filled toUpperCase promptValue
     = (if before is [] then []
        else JS.join (JS.nl ++ JS.nl) (Prompt.line toUpperCase <$> before)
             ++ JS.nl ++ JS.nl)
       ++ Prompt.line toUpperCase m
       ++ (if rest is [] then []
           else JS.nl ++ JS.nl
                ++ JS.join (JS.nl ++ JS.nl) (Prompt.line toUpperCase <$> rest))
     ∧ ∃ tag, Prompt.line toUpperCase m
              = tag ++ JS.lit ": " ++ default JS.empty (Prompt.content m))
  ∧ (Prompt.chosen promptValue = [] →
     Prompt.filled toUpperCase promptValue = Prompt.toString promptValue).
Proof.
  unfold Prompt.filled. split.
  - intros before m rest ->.
    rewrite bool_decide_eq_true_2 by (rewrite length_app; simpl; lia).
    rewrite fmap_app, fmap_cons, join_around. split.
    + destruct before, rest; simpl; by rewrite <- ?app_assoc.
    + unfold Prompt.line. eexists. f_equal. f_equal.
      by destruct (Prompt.content m) as [[|??]|].
  - by intros ->.
Qed.

(** ** The controller and [rag.ts] on the same decision *)



(** X24.  [rag.ts] has no fallback.  For a question that is not blank,
    whose retrieval and filter stages have answered: a 200 reply is the
    escalation exactly when no identifier the filter selected is the
    identifier of a row of the table as the fetch finds it, which includes
    the filter selecting nothing; and when the fetch is entered and the
    store fails it, the reply is a 500 with the store's error. *)
Theorem rag_ts_escalates_on_foreign_ids
    (w : World) (question : jsstring) (s : State)
    (candidates : list Chunk) (checkerResult : option DataCheckerResponse) :
  JS.trim question ≠ JS.empty →
  retrieved w RagTs.TOP_K question s = Ok candidates →
  (Monolith.runDataChecker w question candidates s).1 = Ok checkerResult →
  let out := Monolith.ask w (Some question) s in
  (∀ body,
     out.1 = Monolith.Json body →
     body = Monolith.escalation
     ↔ ∀ table, document_chunks_later w = Ok table →
         ∀ d, d ∈ selected_documents checkerResult → id d ∉ row_chunk_id <$> table)
  ∧ (∀ e ids cs,
       document_chunks_later w = Throw e →
       calls out.2 = calls s ++ cs →
       Call_fetchChunksByIds ids ∈ cs →
       out.1 = Monolith.ServerError e).
Proof.
  intros Hq Hret Hfilter out. subst out. unfold Monolith.ask.
  rewrite bool_decide_eq_false_2 by done.
  rewrite Monolith_ask_pipeline_run. rewrite retrieved_run in Hret.
  rewrite Monolith_runDataChecker_run in Hfilter.
  destruct (embedContent w question) as [vec|e]; [|done].
  destruct (document_chunks w) as [table|e]; [|done].
  injection Hret as Hret. simpl in *. rewrite Hret.
  assert (Hnofetch : ∀ (ids : list jsstring) (cs : list Call),
            calls s ++ [Call_embedQuestion question; Call_retrieveChunks RagTs.TOP_K;
                        Call_runDataChecker candidates] = calls s ++ cs →
            Call_fetchChunksByIds ids ∈ cs → False).
  { intros ids cs <-%app_inv_head Hin.
    repeat (apply elem_of_cons in Hin as [Hin|Hin]; [discriminate|]).
    inversion Hin. }
  destruct (reply_to w RagTs.PROMPT_DATA_CHECKER _) as [raw|e]; [|done].
  injection Hfilter as ->. unfold selected_documents.
  destruct (checkerResult ≫= relevant_documents) as [[|d relevant]|]; simpl.
  1,3: split; [intros body [= <-]; split; [intros _ table' _ d Hd; inversion Hd | done]
              | intros e ids cs _ Hcalls Hin; destruct (Hnofetch ids cs Hcalls Hin)].
  destruct (document_chunks_later w) as [table'|e]; simpl.
  2:{ split; [done|]. by intros e' ids cs [= ->] _ _. }
  split; [|done]. intros body.
  case_bool_decide as Hfound; simpl.
  - intros [= <-]. split; [|done].
    intros _ table'' [= <-] d' Hd' (r & Hr & Hin)%list_elem_of_fmap.
    apply nil_length_inv, fmap_nil_inv in Hfound.
    apply (elem_of_nil r). rewrite <- Hfound.
    apply list_elem_of_filter. split; [|done].
    rewrite <- Hr. change (id d' ∈ id <$> d :: relevant).
    by apply list_elem_of_fmap_2.
  - destruct (reply_to w RagTs.PROMPT_RESPUESTA_FINAL _) as [raw'|e]; [|done].
    intros [= <-]. split; [done|].
    intros Hforeign. destruct Hfound.
    unfold select_by_ids. rewrite length_fmap.
    rewrite (filter_ext_in _ (λ _, False)).
    { clear. by induction table'. }
    intros r Hr. split; [|done].
    change (row_chunk_id r ∈ id <$> d :: relevant → False).
    intros (d' & Hd' & Hin)%list_elem_of_fmap.
    apply (Hforeign table' eq_refl d' Hin). rewrite <- Hd'. by apply list_elem_of_fmap_2.
Qed.

Lemma rag_ts_escalates_on_foreign_ids_witness :
  (∀ body,
     (Monolith.ask Sample.ingesting (Some Sample.question) initial).1
     = Monolith.Json body →
     body = Monolith.escalation
     ↔ ∀ table, document_chunks_later Sample.ingesting = Ok table →
         ∀ d, d ∈ selected_documents (Sample.decision [Sample.a; Sample.b]) →
              id d ∉ row_chunk_id <$> table)
  ∧ (∀ e ids cs,
       document_chunks_later Sample.ingesting = Throw e →
       calls (Monolith.ask Sample.ingesting (Some Sample.question) initial).2
       = calls initial ++ cs →
       Call_fetchChunksByIds ids ∈ cs →
       (Monolith.ask Sample.ingesting (Some Sample.question) initial).1
       = Monolith.ServerError e).
Proof.
  apply (rag_ts_escalates_on_foreign_ids Sample.ingesting Sample.question initial
           [] (Sample.decision [Sample.a; Sample.b])).
  - vm_compute. discriminate.
  - vm_compute. reflexivity.
  - vm_compute. reflexivity.
Defined.
